(** * mommyschoice/store: catalog query engine and inventory record lifecycle

    A shallow embedding of
    - the browsing page's [filteredAndSortedDresses] pipeline
      (category filter, fuzzy search, sort), and
    - the Express routes of [server.ts] over the [dresses] table and the
      [uploads] directory (list, create, update, delete).

    Conventions of the embedding.
    - A JavaScript [number] is a value of [number]: a finite amount, the two
      infinities or NaN.  Finite amounts are integers; the pipeline only looks
      at the sign of a difference of two prices, which is exact for finite
      IEEE doubles, so the order structure is the one of the code.
    - A text is a [string] holding its UTF-8 bytes.  [trim] reads white
      space in that encoding; [LIKE] and [split] work byte by byte.
    - The [sizes] field travels as JSON text.  The table stores the text as
      it is supplied; the list route parses it with [JSON.parse], which
      returns no value where the library throws.  What it returns is an
      array of [SizeInfo], or another JSON value, which the page's [Dress]
      type does not cover.
    - Library code (Fuse.js, the [Date] parser, [JSON.parse]) is a parameter of the
      definitions that call it; [Array.prototype.sort], [String.prototype.trim],
      SQLite's [LIKE] and [ORDER BY] are written out from their documented
      behaviour. *)

From Stdlib Require Import ZArith List String Ascii Bool Lia.
From Stdlib Require Import DecimalString DecimalN.
From Stdlib Require Import Sorting.Permutation Sorting.Sorted.
Import ListNotations.

Local Open Scope string_scope.
Local Open Scope Z_scope.

(* ================================================================== *)
(** * JavaScript numbers, [Math.min], subtraction *)

Inductive number : Type :=
| Fin (z : Z)
| PInf
| NInf
| NaN.

(** [a - b] on numbers. *)
Definition num_sub (a b : number) : number :=
  match a, b with
  | NaN, _ | _, NaN => NaN
  | Fin x, Fin y => Fin (x - y)
  | Fin _, PInf => NInf
  | Fin _, NInf => PInf
  | PInf, PInf => NaN
  | PInf, _ => PInf
  | NInf, NInf => NaN
  | NInf, _ => NInf
  end.

Definition num_min2 (a b : number) : number :=
  match a, b with
  | NaN, _ | _, NaN => NaN
  | NInf, _ | _, NInf => NInf
  | PInf, x | x, PInf => x
  | Fin x, Fin y => Fin (Z.min x y)
  end.

Definition num_max2 (a b : number) : number :=
  match a, b with
  | NaN, _ | _, NaN => NaN
  | PInf, _ | _, PInf => PInf
  | NInf, x | x, NInf => x
  | Fin x, Fin y => Fin (Z.max x y)
  end.

(** [Math.min(...args)]: [+Infinity] when called with no argument. *)
Definition Math_min (args : list number) : number :=
  fold_right num_min2 PInf args.

(** [Math.max(...args)]: [-Infinity] when called with no argument. *)
Definition Math_max (args : list number) : number :=
  fold_right num_max2 NInf args.

(** The sign of a number as the sort reads it; NaN has none. *)
Definition num_sign (v : number) : option comparison :=
  match v with
  | Fin z => Some (z ?= 0)
  | PInf => Some Gt
  | NInf => Some Lt
  | NaN => None
  end.

(** Order on numbers that are not NaN: [-Infinity < finite < +Infinity]. *)
Definition num_leb (a b : number) : bool :=
  match a, b with
  | NaN, _ | _, NaN => false
  | NInf, _ => true
  | _, PInf => true
  | Fin x, Fin y => x <=? y
  | _, _ => false
  end.

Definition num_eqb (a b : number) : bool :=
  match a, b with
  | Fin x, Fin y => x =? y
  | PInf, PInf => true
  | NInf, NInf => true
  | _, _ => false
  end.

(* ================================================================== *)
(** * [Array.prototype.sort]

    ECMAScript's [SortCompare] calls the comparator, converts the result to a
    number and replaces NaN by [+0]; the sort is stable.  For a consistent
    comparator every stable sort returns the same array; it is written here
    as the insertion sort engines use on short runs.  Under an inconsistent
    comparator the order is implementation-defined and the list below is one
    admissible outcome. *)

Section StableSort.
Context {A : Type}.
Variable le : A -> A -> bool.

(** [x] stood before every element of [s] in the input: it goes in front
    of the first element it is not greater than. *)
Fixpoint insert_sorted (x : A) (s : list A) : list A :=
  match s with
  | [] => [x]
  | y :: s' => if le x y then x :: s else y :: insert_sorted x s'
  end.

Definition stable_sort (l : list A) : list A :=
  fold_right insert_sorted [] l.
End StableSort.

(** [SortCompare(x, y)] with a comparator [comparefn]. *)
Definition SortCompare {A : Type} (comparefn : A -> A -> number) (x y : A)
  : comparison :=
  match num_sign (comparefn x y) with
  | Some c => c
  | None => Eq
  end.

Definition sort_le {A : Type} (comparefn : A -> A -> number) (x y : A) : bool :=
  match SortCompare comparefn x y with
  | Gt => false
  | _ => true
  end.

Definition Array_sort {A : Type} (comparefn : A -> A -> number) (l : list A)
  : list A :=
  stable_sort (sort_le comparefn) l.

(* ================================================================== *)
(** * [String.prototype.trim]

    White space is what ECMAScript's [WhiteSpace] and [LineTerminator] list:
    TAB, LF, VT, FF, CR, SPACE, U+00A0, U+1680, U+2000 to U+200A, U+2028,
    U+2029, U+202F, U+205F, U+3000 and U+FEFF.  A text is the sequence of its
    UTF-8 bytes, so the characters beyond SPACE are recognised by their two
    or three bytes. *)

(** TAB, LF, VT, FF, CR and SPACE. *)
Definition is_white_space (c : ascii) : bool :=
  let n := nat_of_ascii c in
  ((9 <=? n) && (n <=? 13))%nat || (n =? 32)%nat.

(** U+00A0 is C2 A0. *)
Definition two_byte_space (c d : ascii) : bool :=
  ((nat_of_ascii c =? 194) && (nat_of_ascii d =? 160))%nat.

(** U+1680 is E1 9A 80; U+2000 to U+200A are E2 80 80 to E2 80 8A; U+2028,
    U+2029 and U+202F are E2 80 A8, E2 80 A9 and E2 80 AF; U+205F is
    E2 81 9F; U+3000 is E3 80 80; U+FEFF is EF BB BF. *)
Definition three_byte_space (c d e : ascii) : bool :=
  let x := nat_of_ascii c in
  let y := nat_of_ascii d in
  let z := nat_of_ascii e in
  (((x =? 225) && (y =? 154) && (z =? 128)) ||
   ((x =? 226) && (y =? 128) &&
    (((128 <=? z) && (z <=? 138)) || (z =? 168) || (z =? 169) || (z =? 175))) ||
   ((x =? 226) && (y =? 129) && (z =? 159)) ||
   ((x =? 227) && (y =? 128) && (z =? 128)) ||
   ((x =? 239) && (y =? 187) && (z =? 191)))%nat.

(** The text is made of white space only. *)
Fixpoint white_space_only (s : string) : bool :=
  match s with
  | EmptyString => true
  | String c s1 =>
      if is_white_space c then white_space_only s1
      else match s1 with
           | EmptyString => false
           | String d s2 =>
               if two_byte_space c d then white_space_only s2
               else match s2 with
                    | EmptyString => false
                    | String e s3 =>
                        three_byte_space c d e && white_space_only s3
                    end
           end
  end.

Fixpoint trimStart (s : string) : string :=
  match s with
  | EmptyString => s
  | String c s1 =>
      if is_white_space c then trimStart s1
      else match s1 with
           | EmptyString => s
           | String d s2 =>
               if two_byte_space c d then trimStart s2
               else match s2 with
                    | EmptyString => s
                    | String e s3 =>
                        if three_byte_space c d e then trimStart s3 else s
                    end
           end
  end.

(** The text up to where nothing but white space follows. *)
Fixpoint trimEnd (s : string) : string :=
  match s with
  | EmptyString => EmptyString
  | String c s' =>
      if white_space_only s then EmptyString else String c (trimEnd s')
  end.

Definition trim (s : string) : string := trimEnd (trimStart s).

(** Truthiness of a string: every string but the empty one. *)
Definition truthy (s : string) : bool := negb (s =? "")%string.

(* ================================================================== *)
(** * Types shared by the browsing page and the server *)

Record SizeInfo : Type := {
  range : string;
  price : Z;
  bodyLong : string;
  pantLong : string
}.

(* ================================================================== *)
(** * The browsing page *)

Module App.

Record Dress : Type := {
  id : Z;
  code : string;
  name : string;
  category : string;
  note : string;
  sizes : list SizeInfo;
  image_url : string;
  created_at : option string
}.

(** [Math.min(...d.sizes.map(s => s.price))] *)
Definition minPrice (d : Dress) : number :=
  Math_min (map (fun s => Fin (price s)) (sizes d)).

(** [Math.max(...d.sizes.map(s => s.price))] *)
Definition maxPrice (d : Dress) : number :=
  Math_max (map (fun s => Fin (price s)) (sizes d)).

(** ** The query pipeline of [PublicFeed] *)

Section QueryEngine.
(** [new Fuse(list, { keys: ['name','code','category','note'],
    threshold: 0.3 }).search(q).map(r => r.item)] *)
Variable fuse_search : list Dress -> string -> list Dress.
(** [new Date(text).getTime()] *)
Variable Date_getTime : string -> number.

(** [new Date(d.created_at || 0).getTime()] *)
Definition createdTime (d : Dress) : number :=
  match created_at d with
  | Some t => if truthy t then Date_getTime t else Fin 0
  | None => Fin 0
  end.

(** Stage 1, category filter. *)
Definition categoryFilter (selectedCategory : string) (result : list Dress)
  : list Dress :=
  if negb (selectedCategory =? "All")%string
  then filter (fun d => (category d =? selectedCategory)%string) result
  else result.

(** Stage 2, fuzzy search. *)
Definition fuzzySearch (searchQuery : string) (result : list Dress)
  : list Dress :=
  if truthy (trim searchQuery)
  then fuse_search result searchQuery
  else result.

(** The comparator handed to [result.sort]. *)
Definition compareDresses (sortBy : string) (a b : Dress) : number :=
  let aMinPrice := minPrice a in
  let bMinPrice := minPrice b in
  if (sortBy =? "price_asc")%string then num_sub aMinPrice bMinPrice
  else if (sortBy =? "price_desc")%string then num_sub bMinPrice aMinPrice
  else if (sortBy =? "newest")%string
       then num_sub (createdTime b) (createdTime a)
  else Fin 0.

(** Stage 3, sort. *)
Definition sortStage (sortBy : string) (result : list Dress) : list Dress :=
  Array_sort (compareDresses sortBy) result.

Definition filteredAndSortedDresses
  (dresses : list Dress) (selectedCategory searchQuery sortBy : string)
  : list Dress :=
  let result := dresses in
  let result := categoryFilter selectedCategory result in
  let result := fuzzySearch searchQuery result in
  sortStage sortBy result.

End QueryEngine.

End App.

(* ================================================================== *)
(** * SQLite's [LIKE]

    [%] matches any run of characters, [_] exactly one, every other
    character matches itself up to the case of ASCII letters.  No escape
    character is in force. *)

Definition ascii_lower (c : ascii) : ascii :=
  let n := nat_of_ascii c in
  if ((65 <=? n) && (n <=? 90))%nat then ascii_of_nat (n + 32) else c.

Definition eqb_nocase (c d : ascii) : bool :=
  Ascii.eqb (ascii_lower c) (ascii_lower d).

Definition is_wildcard (c : ascii) : bool :=
  Ascii.eqb c "%"%char || Ascii.eqb c "_"%char.

Fixpoint sql_like (pattern text : string) : bool :=
  match pattern with
  | EmptyString =>
      match text with EmptyString => true | _ => false end
  | String p pattern' =>
      if Ascii.eqb p "%"%char then
        (fix any_suffix (t : string) : bool :=
           sql_like pattern' t ||
           match t with
           | EmptyString => false
           | String _ t' => any_suffix t'
           end) text
      else
        match text with
        | EmptyString => false
        | String c text' =>
            (Ascii.eqb p "_"%char || eqb_nocase p c) && sql_like pattern' text'
        end
  end.

(** Case-insensitive "starts with" and "contains", for plain text. *)
Fixpoint istarts_with (needle text : string) : bool :=
  match needle, text with
  | EmptyString, _ => true
  | String _ _, EmptyString => false
  | String p needle', String c text' =>
      eqb_nocase p c && istarts_with needle' text'
  end.

Fixpoint icontains (needle text : string) : bool :=
  istarts_with needle text ||
  match text with
  | EmptyString => false
  | String _ text' => icontains needle text'
  end.

Fixpoint has_wildcard (s : string) : bool :=
  match s with
  | EmptyString => false
  | String c s' => is_wildcard c || has_wildcard s'
  end.

(* ================================================================== *)
(** * The server *)

Module Server.

(** ** The [dresses] table and the [uploads] directory *)

(** A row of [dresses].  [sizes_json] is the text that was stored. *)
Record Row : Type := {
  id : Z;
  code : string;
  name : string;
  category : string;
  note : string;
  sizes_json : string;
  image_url : string;
  created_at : string
}.

(** Files are named by their path below [process.cwd()], written the way
    [image_url] writes it: [/uploads/<filename>].  [unlink_fails] lists the
    paths on which [fs.unlinkSync] throws (a permission or a lock). *)
Record World : Type := {
  dresses : list Row;        (* in rowid order *)
  sqlite_sequence : Z;       (* AUTOINCREMENT: the largest id handed out *)
  files : list string;
  unlink_fails : list string
}.

Definition initial_world : World :=
  {| dresses := []; sqlite_sequence := 0; files := []; unlink_fails := [] |}.

Definition set_dresses (w : World) (rows : list Row) : World :=
  {| dresses := rows; sqlite_sequence := sqlite_sequence w;
     files := files w; unlink_fails := unlink_fails w |}.

Definition set_files (w : World) (fs : list string) : World :=
  {| dresses := dresses w; sqlite_sequence := sqlite_sequence w;
     files := fs; unlink_fails := unlink_fails w |}.

Definition mem (p : string) (l : list string) : bool :=
  existsb (String.eqb p) l.

(** ** Effects: a state, exception and trace monad *)

Inductive Event : Type :=
| FileWritten (path : string)     (* multer wrote the file *)
| FileUnlinked (path : string)    (* fs.unlinkSync removed it *)
| RowInserted (rowid : Z)         (* INSERT added the row *)
| RowsUpdated (rowid : Z)         (* UPDATE ... WHERE id = rowid ran *)
| RowsDeleted (rowid : Z).        (* DELETE ... WHERE id = rowid ran *)

(** A thrown [Error]; [message] is its [error.message]. *)
Record Error : Type := { message : string }.

Inductive Result (A : Type) : Type :=
| Returned (a : A)
| Thrown (e : Error).
Arguments Returned {A} a.
Arguments Thrown {A} e.

(** A computation returns or throws, leaves a world, and logs every effect
    it performed together with the world right after it. *)
Definition Trace : Type := list (Event * World).
Definition M (A : Type) : Type := World -> Result A * World * Trace.

Definition ret {A : Type} (a : A) : M A := fun w => (Returned a, w, []).

Definition throw {A : Type} (msg : string) : M A :=
  fun w => (Thrown {| message := msg |}, w, []).

Definition bind {A B : Type} (m : M A) (k : A -> M B) : M B :=
  fun w =>
    match m w with
    | (Returned a, w1, t1) =>
        let '(r, w2, t2) := k a w1 in (r, w2, (t1 ++ t2)%list)
    | (Thrown e, w1, t1) => (Thrown e, w1, t1)
    end.

Definition try_catch {A : Type} (body : M A) (handler : Error -> M A) : M A :=
  fun w =>
    match body w with
    | (Thrown e, w1, t1) =>
        let '(r, w2, t2) := handler e w1 in (r, w2, (t1 ++ t2)%list)
    | done => done
    end.

Definition get_world : M World := fun w => (Returned w, w, []).

(** Perform one effect: move to [w'] and log it. *)
Definition effect (e : Event) (w' : World) : M unit :=
  fun _ => (Returned tt, w', [(e, w')]).

Notation "x <- m ;; k" := (bind m (fun x => k))
  (at level 61, m at next level, right associativity).
Notation "m ;; k" := (bind m (fun _ => k))
  (at level 61, right associativity).
Notation "'try' b 'catch' e => h" := (try_catch b (fun e => h))
  (at level 62, e name, b at level 61, h at level 61).

(** ** File system *)

Definition fs_existsSync (path : string) : M bool :=
  w <- get_world ;; ret (mem path (files w)).

Definition fs_unlinkSync (path : string) : M unit :=
  w <- get_world ;;
  if negb (mem path (files w)) then throw "ENOENT: no such file or directory"
  else if mem path (unlink_fails w) then throw "EACCES: permission denied"
  else effect (FileUnlinked path)
         (set_files w (filter (fun q => negb (String.eqb q path)) (files w))).

(** [multer.diskStorage]: the file lands in [uploads/] under [filename]. *)
Definition disk_store (filename : string) : M unit :=
  w <- get_world ;;
  let path := "/uploads/" ++ filename in
  effect (FileWritten path)
         (set_files w (if mem path (files w) then files w
                       else (files w ++ [path])%list)).

(** ** Statements on [dresses] *)

Definition has_id (i : Z) (r : Row) : bool := id r =? i.
Definition has_code (c : string) (r : Row) : bool := String.eqb (code r) c.

(** [INSERT INTO dresses (code, name, category, note, sizes_json, image_url)];
    [code] is UNIQUE, [id] and [created_at] take their defaults.  Returns
    [lastInsertRowid]. *)
Definition db_insert (code name category note sizes : string)
    (imageUrl now : string) : M Z :=
  w <- get_world ;;
  if existsb (has_code code) (dresses w)
  then throw "UNIQUE constraint failed: dresses.code"
  else
    let rowid := sqlite_sequence w + 1 in
    let row := {| id := rowid; code := code; name := name;
                  category := category; note := note; sizes_json := sizes;
                  image_url := imageUrl; created_at := now |} in
    effect (RowInserted rowid)
      {| dresses := (dresses w ++ [row])%list; sqlite_sequence := rowid;
         files := files w; unlink_fails := unlink_fails w |} ;;
    ret rowid.

(** [UPDATE dresses SET code = ?, name = ?, category = ?, note = ?,
    sizes_json = ? [, image_url = ?] WHERE id = ?]. *)
Definition update_row (code name category note sizes : string)
    (imageUrl : option string) (r : Row) : Row :=
  {| id := id r; code := code; name := name; category := category;
     note := note; sizes_json := sizes;
     image_url := match imageUrl with Some u => u | None => image_url r end;
     created_at := created_at r |}.

Definition db_update (code name category note sizes : string)
    (imageUrl : option string) (rowid : Z) : M unit :=
  w <- get_world ;;
  if existsb (has_id rowid) (dresses w) &&
     existsb (fun r => has_code code r && negb (has_id rowid r)) (dresses w)
  then throw "UNIQUE constraint failed: dresses.code"
  else
    effect (RowsUpdated rowid)
      (set_dresses w
         (map (fun r => if has_id rowid r
                        then update_row code name category note sizes imageUrl r
                        else r)
              (dresses w))).

(** [SELECT image_url FROM dresses WHERE id = ?], [.get]: the first row. *)
Definition db_get_image_url (rowid : Z) : M (option string) :=
  w <- get_world ;;
  ret (option_map image_url (find (has_id rowid) (dresses w))).

(** [DELETE FROM dresses WHERE id = ?]. *)
Definition db_delete (rowid : Z) : M unit :=
  w <- get_world ;;
  effect (RowsDeleted rowid)
    (set_dresses w (filter (fun r => negb (has_id rowid r)) (dresses w))).

(** ** Requests and responses *)

(** What [authenticateToken] finds in the [Authorization] header: nothing,
    a token [jwt.verify] rejects, or one it accepts. *)
Inductive Credentials : Type := NoToken | BadToken | GoodToken.

(** The five text fields the handlers read off [req.body].  [Body.Raw.t] is
    the body as it arrives: a field is a text, or is missing and reads
    [undefined].  [Body.t] is a body in which the five fields are present, as
    the admin form sends it; [sizes] is the text of the field, which the
    form writes with [JSON.stringify]. *)
Module Body.
Record t : Type := {
  code : string;
  name : string;
  category : string;
  note : string;
  sizes : string
}.
Module Raw.
Record t : Type := {
  code : option string;
  name : option string;
  category : option string;
  note : option string;
  sizes : option string
}.
End Raw.
Definition sent (b : t) : Raw.t :=
  {| Raw.code := Some (code b); Raw.name := Some (name b);
     Raw.category := Some (category b); Raw.note := Some (note b);
     Raw.sizes := Some (sizes b) |}.
End Body.

(** [statement.run(...params)] binds its parameters before the statement
    runs; [undefined] is not a value SQLite can bind, and the call throws. *)
Definition bind_fields (body : Body.Raw.t) : M Body.t :=
  match Body.Raw.code body, Body.Raw.name body, Body.Raw.category body,
        Body.Raw.note body, Body.Raw.sizes body with
  | Some code, Some name, Some category, Some note, Some sizes =>
      ret {| Body.code := code; Body.name := name; Body.category := category;
             Body.note := note; Body.sizes := sizes |}
  | _, _, _, _, _ =>
      throw "SQLite3 can only bind numbers, strings, bigints, buffers, and null"
  end.

(** What [JSON.parse] makes of a stored [sizes_json] text, as far as the
    page reads it: an array of [{ range, price, bodyLong, pantLong }]
    objects with integer prices, or any other JSON value. *)
Inductive json : Type :=
| JSizes (sizes : list SizeInfo)
| JOther.

(** An object of the listing: [{ ...d, sizes: JSON.parse(d.sizes_json) }]. *)
Record Listed : Type := {
  stored : Row;
  sizes : json
}.

Inductive Response : Type :=
| Json_dresses (rows : list Listed)              (* 200, the list *)
| Json_created (rowid : Z) (imageUrl : string)   (* 200, { id, imageUrl } *)
| Json_success                                   (* 200, { success: true } *)
| Json_error (status : Z) (error : string).      (* status, { error } *)

Definition authenticateToken (auth : Credentials) (next : M Response)
  : M Response :=
  match auth with
  | NoToken => ret (Json_error 401 "Unauthorized")
  | BadToken => ret (Json_error 403 "Forbidden")
  | GoodToken => next
  end.

(** [upload.single("image")]: stores the file part, when there is one, under
    the name the [filename] callback made up for it ([req.file.filename]). *)
Definition upload_single (file : option string) : M unit :=
  match file with
  | Some filename => disk_store filename
  | None => ret tt
  end.

(** ** [GET /api/dresses] *)

Definition category_condition (category : option string) (r : Row) : bool :=
  match category with
  | Some c =>
      if truthy c && negb (c =? "All")%string
      then (Server.category r =? c)%string
      else true
  | None => true
  end.

Definition search_condition (search : option string) (r : Row) : bool :=
  match search with
  | Some s =>
      if truthy s
      then let pattern := "%" ++ s ++ "%" in
           sql_like pattern (name r) || sql_like pattern (code r) ||
           sql_like pattern (Server.category r)
      else true
  | None => true
  end.

(** [ORDER BY created_at DESC]; rows with equal [created_at] stay in scan
    order. *)
Definition order_by_created_at_desc (rows : list Row) : list Row :=
  stable_sort (fun a b => String.leb (created_at b) (created_at a)) rows.

Definition select_dresses (category search : option string) (w : World)
  : list Row :=
  order_by_created_at_desc
    (filter (fun r => category_condition category r &&
                      search_condition search r)
            (dresses w)).

Section Listing.
(** [JSON.parse(text)]; [None] when it throws a [SyntaxError]. *)
Variable JSON_parse : string -> option json.

(** [d => ({ ...d, sizes: JSON.parse(d.sizes_json) })] *)
Definition with_sizes (d : Row) : M Listed :=
  match JSON_parse (sizes_json d) with
  | Some value => ret {| stored := d; sizes := value |}
  | None => throw "Unexpected token in JSON"
  end.

(** [dresses.map(...)]: row after row, up to the first that throws. *)
Fixpoint map_with_sizes (rows : list Row) : M (list Listed) :=
  match rows with
  | [] => ret []
  | d :: rest =>
      x <- with_sizes d ;;
      xs <- map_with_sizes rest ;;
      ret (x :: xs)
  end.

(** The 500 answer also carries the engine's message under [details];
    the model keeps the [error] text only. *)
Definition get_dresses (category search : option string) : M Response :=
  try (w <- get_world ;;
       rows <- map_with_sizes (select_dresses category search w) ;;
       ret (Json_dresses rows))
  catch error => ret (Json_error 500 "Internal Server Error").

End Listing.

(** ** [POST /api/admin/dresses] *)

Definition post_admin_dresses_req (auth : Credentials) (body : Body.Raw.t)
    (file : option string) (now : string) : M Response :=
  authenticateToken auth (
    upload_single file ;;
    (try (let imageUrl :=
           "/uploads/" ++
           match file with Some filename => filename | None => "undefined" end
         in
         fields <- bind_fields body ;;
         rowid <- db_insert (Body.code fields) (Body.name fields)
                    (Body.category fields) (Body.note fields)
                    (Body.sizes fields) imageUrl now ;;
         ret (Json_created rowid imageUrl))
     catch error => ret (Json_error 400 (message error)))).

(** The route on a request whose five text fields are present. *)
Definition post_admin_dresses (auth : Credentials) (body : Body.t)
    (file : option string) (now : string) : M Response :=
  post_admin_dresses_req auth (Body.sent body) file now.

(** ** [PUT /api/admin/dresses/:id] *)

Definition put_admin_dresses_req (auth : Credentials) (rowid : Z)
    (body : Body.Raw.t) (file : option string) : M Response :=
  authenticateToken auth (
    upload_single file ;;
    (try (fields <- bind_fields body ;;
          db_update (Body.code fields) (Body.name fields)
            (Body.category fields) (Body.note fields) (Body.sizes fields)
            (option_map (fun filename => "/uploads/" ++ filename) file)
            rowid ;;
          ret Json_success)
     catch error => ret (Json_error 400 (message error)))).

(** The route on a request whose five text fields are present. *)
Definition put_admin_dresses (auth : Credentials) (rowid : Z) (body : Body.t)
    (file : option string) : M Response :=
  put_admin_dresses_req auth rowid (Body.sent body) file.

(** ** [DELETE /api/admin/dresses/:id] *)

Definition delete_admin_dresses (auth : Credentials) (rowid : Z)
  : M Response :=
  authenticateToken auth (
    try (dress <- db_get_image_url rowid ;;
         match dress with
         | Some image_url =>
             present <- fs_existsSync image_url ;;
             (if present then fs_unlinkSync image_url else ret tt) ;;
             db_delete rowid ;;
             ret Json_success
         | None => ret (Json_error 404 "Dress not found")
         end)
    catch error => ret (Json_error 500 (message error))).

(** ** Reading a run *)

Definition response_of (run : Result Response * World * Trace)
  : option Response :=
  match run with
  | (Returned r, _, _) => Some r
  | (Thrown _, _, _) => None
  end.

Definition world_of {A : Type} (run : Result A * World * Trace) : World :=
  snd (fst run).

Definition events_of {A : Type} (run : Result A * World * Trace)
  : list Event :=
  map fst (snd run).

(** The worlds the run went through after each of its effects. *)
Definition worlds_of {A : Type} (run : Result A * World * Trace)
  : list World :=
  map snd (snd run).


(** What is left of the table and of the directory after a removal. *)
Definition without_id (rowid : Z) (rows : list Row) : list Row :=
  filter (fun r => negb (has_id rowid r)) rows.

Definition without_file (path : string) (fs : list string) : list string :=
  filter (fun q => negb (String.eqb q path)) fs.

Definition listed (rowid : Z) (resp : Response) : Prop :=
  match resp with
  | Json_dresses rows => exists d, In d rows /\ id (stored d) = rowid
  | _ => False
  end.

(** The objects [map_with_sizes] returns, when no row throws. *)
Fixpoint parsed (JSON_parse : string -> option json) (rows : list Row)
  : option (list Listed) :=
  match rows with
  | [] => Some []
  | d :: rest =>
      match JSON_parse (sizes_json d), parsed JSON_parse rest with
      | Some value, Some objects =>
          Some ({| stored := d; sizes := value |} :: objects)
      | _, _ => None
      end
  end.

(** The rows a listing needs parsed all parse. *)
Definition all_parse (JSON_parse : string -> option json) (rows : list Row)
  : Prop :=
  forall r, In r rows -> JSON_parse (sizes_json r) <> None.

(** The objects of a listing: each row with what its text parses to. *)
Definition listing_of (JSON_parse : string -> option json) (rows : list Row)
    (objects : list Listed) : Prop :=
  map stored objects = rows /\
  forall d, In d objects -> JSON_parse (sizes_json (stored d)) = Some (sizes d).

End Server.

(* ================================================================== *)
(** * Notions used in the statements *)

(** A size list has a finite minimum price, or none and then [+Infinity]. *)
Inductive price_key : number -> Prop :=
| key_finite (z : Z) : price_key (Fin z)
| key_none : price_key PInf.

(** The minimum variant price in the spec's words: the price of one of the
    record's variants that none of its variants is priced below.  A record
    without variants has no such price; the code's value for it is
    [+Infinity]. *)
Inductive min_variant_price (d : App.Dress) : number -> Prop :=
| min_of_variants (m : Z) :
    (exists s, In s (App.sizes d) /\ price s = m) ->
    (forall s, In s (App.sizes d) -> m <= price s) ->
    min_variant_price d (Fin m)
| min_of_none :
    App.sizes d = [] -> min_variant_price d PInf.

(** Order of two records by derived minimum price. *)
Definition price_le (a b : App.Dress) : bool :=
  num_leb (App.minPrice a) (App.minPrice b).

Definition price_ge (a b : App.Dress) : bool := price_le b a.

(** The records whose derived minimum price is [p]. *)
Definition priced_at (p : number) (d : App.Dress) : bool :=
  num_eqb (App.minPrice d) p.

Definition has_variants (d : App.Dress) : bool :=
  match App.sizes d with
  | [] => false
  | _ :: _ => true
  end.

Definition no_variants (d : App.Dress) : bool := negb (has_variants d).

(* ================================================================== *)
(** * Sample data *)

Definition size_of (r : string) (p : Z) : SizeInfo :=
  {| range := r; price := p; bodyLong := ""; pantLong := "" |}.

(** The two records of the scenario: A1, Summer, from 500; B2, Winter,
    from 800. *)
Definition dress_A1 : App.Dress :=
  {| App.id := 1; App.code := "A1"; App.name := "Lawn frock";
     App.category := "Summer"; App.note := "";
     App.sizes := [size_of "22-26" 500; size_of "28-32" 650];
     App.image_url := "/uploads/1700000000000-1.jpg";
     App.created_at := Some "2024-01-01 10:00:00" |}.

Definition dress_B2 : App.Dress :=
  {| App.id := 2; App.code := "B2"; App.name := "Wool set";
     App.category := "Winter"; App.note := "";
     App.sizes := [size_of "M" 800];
     App.image_url := "/uploads/1700000000001-2.jpg";
     App.created_at := Some "2024-01-02 10:00:00" |}.

(** A record without any size. *)
Definition dress_C3 : App.Dress :=
  {| App.id := 3; App.code := "C3"; App.name := "Sample";
     App.category := "Summer"; App.note := "";
     App.sizes := [];
     App.image_url := "/uploads/1700000000002-3.jpg";
     App.created_at := Some "2024-01-03 10:00:00" |}.

(** The JSON text of a size array, as the form's [JSON.stringify] writes
    it for sizes without measurements. *)
Definition dq : string := String (ascii_of_nat 34) EmptyString.

Definition size_text (r p : string) : string :=
  "{" ++ dq ++ "range" ++ dq ++ ":" ++ dq ++ r ++ dq ++ "," ++
  dq ++ "price" ++ dq ++ ":" ++ p ++ "," ++
  dq ++ "bodyLong" ++ dq ++ ":" ++ dq ++ dq ++ "," ++
  dq ++ "pantLong" ++ dq ++ ":" ++ dq ++ dq ++ "}".

Definition sizes_A1 : string :=
  "[" ++ size_text "22-26" "500" ++ "," ++ size_text "28-32" "650" ++ "]".
Definition sizes_B2 : string := "[" ++ size_text "M" "800" ++ "]".
Definition sizes_D4 : string := "[" ++ size_text "S" "300" ++ "]".
Definition sizes_A1_edited : string := "[" ++ size_text "22-26" "550" ++ "]".

(** [JSON.parse] on the texts the sample stores hold; any other text stands
    for one it throws on, as it does on the text [oops]. *)
Definition sample_parse (text : string) : option Server.json :=
  if (text =? sizes_A1)%string
  then Some (Server.JSizes [size_of "22-26" 500; size_of "28-32" 650])
  else if (text =? sizes_B2)%string
  then Some (Server.JSizes [size_of "M" 800])
  else if (text =? sizes_D4)%string
  then Some (Server.JSizes [size_of "S" 300])
  else if (text =? sizes_A1_edited)%string
  then Some (Server.JSizes [size_of "22-26" 550])
  else if (text =? "[]")%string
  then Some (Server.JSizes [])
  else None.

(** The same two records as rows of the table, with their image files. *)
Definition row_A1 : Server.Row :=
  {| Server.id := 1; Server.code := "A1"; Server.name := "Lawn frock";
     Server.category := "Summer"; Server.note := "";
     Server.sizes_json := sizes_A1;
     Server.image_url := "/uploads/1700000000000-1.jpg";
     Server.created_at := "2024-01-01 10:00:00" |}.

Definition row_B2 : Server.Row :=
  {| Server.id := 2; Server.code := "B2"; Server.name := "Wool set";
     Server.category := "Winter"; Server.note := "";
     Server.sizes_json := sizes_B2;
     Server.image_url := "/uploads/1700000000001-2.jpg";
     Server.created_at := "2024-01-02 10:00:00" |}.

(** A row whose note alone holds the text [a_c]; its name holds [abc]. *)
Definition row_D4 : Server.Row :=
  {| Server.id := 4; Server.code := "D4"; Server.name := "Frock abc";
     Server.category := "Kids"; Server.note := "cut a_c";
     Server.sizes_json := sizes_D4;
     Server.image_url := "/uploads/1700000000003-4.jpg";
     Server.created_at := "2024-01-04 10:00:00" |}.

Definition shop : Server.World :=
  {| Server.dresses := [row_A1; row_B2];
     Server.sqlite_sequence := 2;
     Server.files := ["/uploads/1700000000000-1.jpg";
                      "/uploads/1700000000001-2.jpg"];
     Server.unlink_fails := [] |}.

(** The shop with D4 added. *)
Definition shop_with_D4 : Server.World :=
  {| Server.dresses := [row_A1; row_B2; row_D4];
     Server.sqlite_sequence := 4;
     Server.files := ["/uploads/1700000000000-1.jpg";
                      "/uploads/1700000000001-2.jpg";
                      "/uploads/1700000000003-4.jpg"];
     Server.unlink_fails := [] |}.

(** The same shop when the image of A1 cannot be unlinked. *)
Definition shop_locked : Server.World :=
  {| Server.dresses := Server.dresses shop;
     Server.sqlite_sequence := Server.sqlite_sequence shop;
     Server.files := Server.files shop;
     Server.unlink_fails := ["/uploads/1700000000000-1.jpg"] |}.

Definition body_A1 : Server.Body.t :=
  {| Server.Body.code := "A1"; Server.Body.name := "Lawn frock";
     Server.Body.category := "Eid"; Server.Body.note := "";
     Server.Body.sizes := sizes_A1_edited |}.

(** A form sent without any size row: [JSON.stringify([])]. *)
Definition body_E5 : Server.Body.t :=
  {| Server.Body.code := "E5"; Server.Body.name := "Draft";
     Server.Body.category := "Summer"; Server.Body.note := "";
     Server.Body.sizes := "[]" |}.

(** A search text of white space only: U+00A0, SPACE, U+2028, TAB and
    U+FEFF, in UTF-8. *)
Definition text_of_bytes (l : list nat) : string :=
  fold_right (fun n s => String (ascii_of_nat n) s) EmptyString l.

Definition blank_text : string :=
  text_of_bytes [194; 160; 32; 226; 128; 168; 9; 239; 187; 191]%nat.

(** Stand-ins for the two library parameters where a closed term needs
    them; the price sorts and the empty search never call them. *)
Definition no_fuse (l : list App.Dress) (q : string) : list App.Dress := [].
Definition no_date (t : string) : number := NaN.

(* ================================================================== *)
(** * More of the browsing page *)

Module View.


(** The listing as the page types it, [Dress[]]: every object's [sizes] is
    an array of sizes.  [None] when some object's is not. *)
Definition as_Dress (d : Server.Listed) : option App.Dress :=
  match Server.sizes d with
  | Server.JSizes l =>
      Some {| App.id := Server.id (Server.stored d);
              App.code := Server.code (Server.stored d);
              App.name := Server.name (Server.stored d);
              App.category := Server.category (Server.stored d);
              App.note := Server.note (Server.stored d);
              App.sizes := l;
              App.image_url := Server.image_url (Server.stored d);
              App.created_at := Some (Server.created_at (Server.stored d)) |}
  | Server.JOther => None
  end.

Fixpoint as_Dresses (objects : list Server.Listed) : option (list App.Dress) :=
  match objects with
  | [] => Some []
  | d :: rest =>
      match as_Dress d, as_Dresses rest with
      | Some x, Some xs => Some (x :: xs)
      | _, _ => None
      end
  end.

(** The options of the dashboard's category select:
    [categories.filter(c => c !== 'All')]. *)
Definition category_options (categories : list string) : list string :=
  filter (fun c => negb (c =? "All")%string) categories.

End View.

(* ================================================================== *)
(** * More of the server *)

(** ** Names of uploaded files *)

Module Upload.

(** A non-negative integer in decimal, as string concatenation prints a
    timestamp or a rounded random number. *)
Definition decimal (n : N) : string := NilZero.string_of_uint (N.to_uint n).

(** The [filename] callback of [multer.diskStorage]:
    [Date.now() + "-" + Math.round(Math.random() * 1e9)] followed by
    [path.extname(file.originalname)].  The clock value, the random draw and
    the extension [path.extname] returned are the arguments. *)
Definition filename (now random : N) (extname : string) : string :=
  let uniqueSuffix := decimal now ++ "-" ++ decimal random in
  uniqueSuffix ++ extname.

Definition is_digit (c : ascii) : bool :=
  let n := nat_of_ascii c in ((48 <=? n) && (n <=? 57))%nat.

Fixpoint all_digits (s : string) : bool :=
  match s with
  | EmptyString => true
  | String c s' => is_digit c && all_digits s'
  end.

Definition not_digit_led (s : string) : Prop :=
  match s with
  | EmptyString => True
  | String c _ => is_digit c = false
  end.

(** What [path.extname] returns: nothing, or a dot and what follows it. *)
Definition extension_shaped (e : string) : Prop :=
  match e with
  | EmptyString => True
  | String c _ => c = "."%char
  end.

End Upload.

(** ** The [Authorization] header, login and the seeded admin *)

Module Auth.

(** [s.split(sep)] for a one-character separator. *)
Fixpoint split (sep : ascii) (s : string) : list string :=
  match s with
  | EmptyString => [EmptyString]
  | String c s' =>
      if Ascii.eqb c sep then EmptyString :: split sep s'
      else match split sep s' with
           | [] => [String c EmptyString]
           | piece :: pieces => String c piece :: pieces
           end
  end.

Fixpoint has_char (x : ascii) (s : string) : bool :=
  match s with
  | EmptyString => false
  | String c s' => Ascii.eqb c x || has_char x s'
  end.

(** [process.env.X || fallback] *)
Definition env_or (value : option string) (fallback : string) : string :=
  match value with
  | Some v => if truthy v then v else fallback
  | None => fallback
  end.

(** A row of [users]. *)
Record User : Type := {
  user_id : Z;
  username : string;
  password_hash : string
}.

Record Users : Type := {
  rows : list User;      (* in rowid order *)
  sequence : Z           (* AUTOINCREMENT *)
}.

(** [SELECT * FROM users WHERE username = ?], [.get] *)
Definition find_user (name : string) (t : Users) : option User :=
  find (fun u => (username u =? name)%string) (rows t).

Inductive LoginResponse : Type :=
| Login_token (token : string)                  (* 200, { token } *)
| Login_error (status : Z) (error : string).    (* status, { error } *)

Section Libraries.
(** [jwt.verify(token, JWT_SECRET, cb)] calls back without an error. *)
Variable jwt_verify : string -> bool.
(** [jwt.sign({ id, username }, JWT_SECRET, { expiresIn: "24h" })] *)
Variable jwt_sign : Z -> string -> string.
(** [bcrypt.hashSync(password, 10)] and [bcrypt.compareSync(password, hash)] *)
Variable hashSync : string -> string.
Variable compareSync : string -> string -> bool.

(** [authHeader && authHeader.split(" ")[1]]; [None] stands for a value
    that [!token] rejects. *)
Definition token_of (authHeader : option string) : option string :=
  match authHeader with
  | Some h =>
      if truthy h
      then match nth_error (split " " h) 1 with
           | Some token => if truthy token then Some token else None
           | None => None
           end
      else None
  | None => None
  end.

(** What [authenticateToken] makes of the header. *)
Definition credentials_of (authHeader : option string) : Server.Credentials :=
  match token_of authHeader with
  | None => Server.NoToken
  | Some token =>
      if jwt_verify token then Server.GoodToken else Server.BadToken
  end.

(** [seedAdmin], run once when the server starts. *)
Definition seedAdmin (ADMIN_USERNAME ADMIN_PASSWORD : option string)
    (t : Users) : Users :=
  let name := env_or ADMIN_USERNAME "yukii22" in
  let password := env_or ADMIN_PASSWORD "yuki@88" in
  match find_user name t with
  | None =>
      let hash := hashSync password in
      {| rows := (rows t ++ [{| user_id := sequence t + 1; username := name;
                                password_hash := hash |}])%list;
         sequence := sequence t + 1 |}
  | Some _ => t
  end.

(** [POST /api/admin/login] *)
Definition post_admin_login (name password : string) (t : Users)
  : LoginResponse :=
  match find_user name t with
  | Some user =>
      if compareSync password (password_hash user)
      then Login_token (jwt_sign (user_id user) (username user))
      else Login_error 401 "Invalid username or password"
  | None => Login_error 401 "Invalid username or password"
  end.

(** The header the dashboard sends: [`Bearer ${token}`]. *)
Definition bearer (token : string) : string := "Bearer " ++ token.

End Libraries.

End Auth.

(** ** [GET /api/categories] and the shape of the table *)

Module Catalog.
Import Server.

(** [SELECT DISTINCT category]: each value once.  The order is the
    engine's; first occurrences in scan order are kept here. *)
Fixpoint distinct (l : list string) : list string :=
  match l with
  | [] => []
  | x :: l' => x :: filter (fun y => negb (y =? x)%string) (distinct l')
  end.

(** The body of the 200 response: [["All", ...categories]]. *)
Definition get_categories (w : World) : list string :=
  "All" :: distinct (map category (dresses w)).

(** What the schema promises of the table: [id] is a key, [code] is
    UNIQUE, and no id exceeds the AUTOINCREMENT counter. *)
Definition well_formed (w : World) : Prop :=
  NoDup (map id (dresses w)) /\
  NoDup (map code (dresses w)) /\
  Forall (fun r => id r <= sqlite_sequence w) (dresses w).

(** The row a successful create appends, the uniqueness test of an update
    and the rows an update leaves. *)
Definition new_row_of (w : World) (body : Body.t) (file : option string)
    (now : string) : Row :=
  {| id := sqlite_sequence w + 1; code := Body.code body;
     name := Body.name body; category := Body.category body;
     note := Body.note body; sizes_json := Body.sizes body;
     image_url := "/uploads/" ++
                  match file with Some f => f | None => "undefined" end;
     created_at := now |}.

Definition code_clash (rowid : Z) (c : string) (rows : list Row) : bool :=
  existsb (has_id rowid) rows &&
  existsb (fun r => has_code c r && negb (has_id rowid r)) rows.

Definition updated_rows (rowid : Z) (body : Body.t) (file : option string)
    (rows : list Row) : list Row :=
  map (fun r => if has_id rowid r
                then update_row (Body.code body) (Body.name body)
                       (Body.category body) (Body.note body) (Body.sizes body)
                       (option_map (fun f => "/uploads/" ++ f) file) r
                else r) rows.

(** A text with its ASCII capitals turned into small letters. *)
Fixpoint to_lower (s : string) : string :=
  match s with
  | EmptyString => EmptyString
  | String c s' => String (ascii_lower c) (to_lower s')
  end.

Fixpoint all_white_space (s : string) : bool :=
  match s with
  | EmptyString => true
  | String c s' => is_white_space c && all_white_space s'
  end.

(** Texts of 7-bit characters, where a character is a byte. *)
Fixpoint ascii_only (s : string) : bool :=
  match s with
  | EmptyString => true
  | String c s' => (nat_of_ascii c <? 128)%nat && ascii_only s'
  end.

(** The order of [ORDER BY created_at DESC]. *)
Definition newer_or_equal (a b : Row) : bool :=
  String.leb (created_at b) (created_at a).

(** An admin request, as one of the three routes. *)
Inductive Request : Type :=
| Create (body : Body.t) (file : option string) (now : string)
| Update (rowid : Z) (body : Body.t) (file : option string)
| Delete (rowid : Z).

Definition handle (auth : Credentials) (req : Request) : M Response :=
  match req with
  | Create body file now => post_admin_dresses auth body file now
  | Update rowid body file => put_admin_dresses auth rowid body file
  | Delete rowid => delete_admin_dresses auth rowid
  end.

(** The world after a series of admin requests, one after the other. *)
Fixpoint run_all (reqs : list (Credentials * Request)) (w : World) : World :=
  match reqs with
  | [] => w
  | (auth, req) :: reqs' => run_all reqs' (world_of (handle auth req w))
  end.

End Catalog.

(** Stand-ins for the token and password libraries in closed terms. *)
Definition toy_sign (uid : Z) (name : string) : string :=
  "jwt." ++ (if Auth.has_char " " name then "" else name).
Definition toy_verify (token : string) : bool :=
  match token with
  | String "j" (String "w" (String "t" (String "." _))) => true
  | _ => false
  end.
Definition toy_hash (password : string) : string := "$2a$10$" ++ password.
Definition toy_compare (password hash : string) : bool :=
  (hash =? toy_hash password)%string.

Definition no_users : Auth.Users := {| Auth.rows := []; Auth.sequence := 0 |}.


(* ================================================================== *)
(** * Facts about the stable sort *)

Section StableSortFacts.
Context {A : Type}.
Variable le : A -> A -> bool.

Lemma insert_sorted_perm (x : A) (s : list A) :
  Permutation (x :: s) (insert_sorted le x s).
Proof.
  induction s as [|y s IH]; simpl.
  - apply Permutation_refl.
  - destruct (le x y).
    + apply Permutation_refl.
    + eapply Permutation_trans; [apply perm_swap|].
      now apply perm_skip.
Qed.

Lemma stable_sort_perm (l : list A) : Permutation l (stable_sort le l).
Proof.
  induction l as [|x l IH]; simpl.
  - constructor.
  - eapply Permutation_trans; [|apply insert_sorted_perm].
    now apply perm_skip.
Qed.

Lemma insert_sorted_In (x y : A) (s : list A) :
  In y (insert_sorted le x s) <-> y = x \/ In y s.
Proof.
  split; intro H.
  - eapply Permutation_in in H;
      [|apply Permutation_sym, insert_sorted_perm].
    destruct H as [H|H]; [left; now symmetry | now right].
  - eapply Permutation_in; [apply insert_sorted_perm|].
    destruct H as [H|H]; [left; now symmetry | now right].
Qed.

Hypothesis le_total : forall x y, le x y = true \/ le y x = true.
Hypothesis le_trans :
  forall x y z, le x y = true -> le y z = true -> le x z = true.

Let leP (x y : A) : Prop := le x y = true.

Lemma insert_sorted_sorted (x : A) (s : list A) :
  StronglySorted leP s -> StronglySorted leP (insert_sorted le x s).
Proof.
  induction s as [|y s IH]; simpl; intro Hs.
  - constructor; constructor.
  - inversion Hs as [|? ? Hs' Hall]; subst.
    destruct (le x y) eqn:Hxy.
    + constructor; [assumption|].
      constructor; [exact Hxy|].
      rewrite Forall_forall in *. intros z Hz.
      apply le_trans with y; [exact Hxy | now apply Hall].
    + constructor; [now apply IH|].
      rewrite Forall_forall in *. intros z Hz.
      apply insert_sorted_In in Hz. destruct Hz as [->|Hz].
      * destruct (le_total x y) as [H|H]; [congruence | exact H].
      * now apply Hall.
Qed.

Lemma stable_sort_sorted (l : list A) :
  StronglySorted leP (stable_sort le l).
Proof.
  induction l as [|x l IH]; simpl.
  - constructor.
  - now apply insert_sorted_sorted.
Qed.

(** Stability, read through a class [P] of elements that tie with each
    other: the sort leaves the elements of the class in input order. *)
Lemma insert_sorted_filter (P : A -> bool) (x : A) (s : list A) :
  (forall y, P x = true -> P y = true -> le x y = true) ->
  filter P (insert_sorted le x s) = filter P (x :: s).
Proof.
  intro Htie. induction s as [|y s IH]; simpl.
  - reflexivity.
  - destruct (le x y) eqn:Hxy; simpl.
    + reflexivity.
    + simpl in IH. rewrite IH.
      destruct (P x) eqn:Px, (P y) eqn:Py; try reflexivity.
      specialize (Htie y eq_refl Py). congruence.
Qed.

Lemma stable_sort_filter (P : A -> bool) (l : list A) :
  (forall x y, P x = true -> P y = true -> le x y = true) ->
  filter P (stable_sort le l) = filter P l.
Proof.
  intro Htie. induction l as [|x l IH]; simpl.
  - reflexivity.
  - rewrite insert_sorted_filter by (intro y; apply Htie).
    simpl. now rewrite IH.
Qed.
End StableSortFacts.

Lemma StronglySorted_impl {A : Type} (R R' : A -> A -> Prop) (l : list A) :
  (forall x y, R x y -> R' x y) -> StronglySorted R l -> StronglySorted R' l.
Proof.
  intros Himp. induction 1 as [|a l Hs IH Hall]; constructor; [exact IH|].
  rewrite Forall_forall in *. intros y Hy. now apply Himp, Hall.
Qed.

(** Reversing a sorted list sorts it for the converse order. *)
Lemma StronglySorted_app {A : Type} (R : A -> A -> Prop) (l1 l2 : list A) :
  StronglySorted R l1 -> StronglySorted R l2 ->
  (forall x y, In x l1 -> In y l2 -> R x y) ->
  StronglySorted R (l1 ++ l2)%list.
Proof.
  induction l1 as [|a l1 IH]; simpl; intros H1 H2 H12.
  - exact H2.
  - inversion H1 as [|? ? H1' Hall]; subst.
    constructor.
    + apply IH; auto.
    + rewrite Forall_forall in *. intros z Hz.
      apply in_app_or in Hz. destruct Hz; auto.
Qed.

Lemma StronglySorted_rev {A : Type} (R : A -> A -> Prop) (l : list A) :
  StronglySorted R l -> StronglySorted (fun x y => R y x) (rev l).
Proof.
  induction 1 as [|a l Hs IH Hall]; simpl.
  - constructor.
  - apply StronglySorted_app.
    + exact IH.
    + constructor; constructor.
    + intros x y Hx [<-|[]]. apply in_rev in Hx.
      rewrite Forall_forall in Hall. now apply Hall.
Qed.

(** Two sorted arrangements of the same elements coincide when the order
    separates any two distinct elements. *)
Lemma sorted_perm_unique {A : Type} (R : A -> A -> Prop) (l1 l2 : list A) :
  (forall x y, In x l1 -> In y l1 -> R x y -> R y x -> x = y) ->
  StronglySorted R l1 -> StronglySorted R l2 -> Permutation l1 l2 ->
  l1 = l2.
Proof.
  revert l2. induction l1 as [|a l1 IH]; intros l2 Hanti H1 H2 Hp.
  - apply Permutation_nil in Hp. now subst.
  - destruct l2 as [|b l2].
    + apply Permutation_sym, Permutation_nil in Hp. discriminate.
    + inversion H1 as [|? ? H1' Hall1]; subst.
      inversion H2 as [|? ? H2' Hall2]; subst.
      rewrite Forall_forall in Hall1, Hall2.
      assert (Hab : a = b).
      { assert (Ha : In a (b :: l2))
          by (eapply Permutation_in; [exact Hp | now left]).
        assert (Hb : In b (a :: l1))
          by (eapply Permutation_in;
              [apply Permutation_sym; exact Hp | now left]).
        destruct Ha as [Ha|Ha]; [now symmetry|].
        destruct Hb as [Hb|Hb]; [exact Hb|].
        apply Hanti; [now left | now right | now apply Hall1 | now apply Hall2]. }
      subst b. f_equal.
      apply IH; auto.
      * intros x y Hx Hy. apply Hanti; now right.
      * eapply Permutation_cons_inv; exact Hp.
Qed.

Lemma stable_sort_ext {A : Type} (le1 le2 : A -> A -> bool) (l : list A) :
  (forall x y, le1 x y = le2 x y) -> stable_sort le1 l = stable_sort le2 l.
Proof.
  intro Hext. induction l as [|x l IH]; simpl; [reflexivity|].
  rewrite IH. generalize (stable_sort le2 l) as s.
  induction s as [|y s IHs]; simpl; [reflexivity|].
  now rewrite Hext, IHs.
Qed.

(* ================================================================== *)
(** * Facts about [trim] *)

Lemma trimEnd_empty_iff (s : string) :
  trimEnd s = "" <-> white_space_only s = true.
Proof.
  destruct s as [|c s]; [cbn; tauto|].
  cbn [trimEnd]. destruct (white_space_only (String c s)).
  - tauto.
  - split; discriminate.
Qed.

(** Reasoning on a text follows its characters, one to three bytes at a
    time, hence by the length of the text. *)
Lemma white_space_only_trimStart (s : string) :
  white_space_only (trimStart s) = white_space_only s.
Proof.
  remember (String.length s) as n eqn:Hn.
  assert (Hle : (String.length s <= n)%nat) by lia. clear Hn.
  revert s Hle. induction n as [|n IH]; intros s Hle.
  - destruct s; [reflexivity | cbn in Hle; lia].
  - destruct s as [|c s1]; [reflexivity|]. cbn [trimStart white_space_only].
    cbn in Hle. destruct (is_white_space c) eqn:W1.
    + apply IH. lia.
    + destruct s1 as [|d s2]; [cbn; now rewrite W1|].
      cbn in Hle. destruct (two_byte_space c d) eqn:W2.
      * apply IH. lia.
      * destruct s2 as [|e s3]; [cbn; now rewrite W1, W2|].
        cbn in Hle. destruct (three_byte_space c d e) eqn:W3.
        -- cbn [andb]. apply IH. lia.
        -- cbn. now rewrite W1, W2, W3.
Qed.

Lemma trimStart_white_space_only (s : string) :
  white_space_only s = true -> trimStart s = "".
Proof.
  remember (String.length s) as n eqn:Hn.
  assert (Hle : (String.length s <= n)%nat) by lia. clear Hn.
  revert s Hle. induction n as [|n IH]; intros s Hle.
  - destruct s; [reflexivity | cbn in Hle; lia].
  - destruct s as [|c s1]; [reflexivity|]. cbn [trimStart white_space_only].
    cbn in Hle. destruct (is_white_space c).
    + apply IH. lia.
    + destruct s1 as [|d s2]; [discriminate|].
      cbn in Hle. destruct (two_byte_space c d).
      * apply IH. lia.
      * destruct s2 as [|e s3]; [discriminate|].
        cbn in Hle. destruct (three_byte_space c d e); [|discriminate].
        cbn [andb]. apply IH. lia.
Qed.

(** A text trims to nothing exactly when it is made of white space. *)
Lemma trim_empty_iff (s : string) :
  trim s = "" <-> white_space_only s = true.
Proof.
  unfold trim. rewrite trimEnd_empty_iff. now rewrite white_space_only_trimStart.
Qed.

(* ================================================================== *)
(** * Facts about derived prices *)

Lemma Math_min_prices (l : list SizeInfo) :
  match l with
  | [] => Math_min (map (fun s => Fin (price s)) l) = PInf
  | _ :: _ => exists z, Math_min (map (fun s => Fin (price s)) l) = Fin z
  end.
Proof.
  induction l as [|s l IH]; [reflexivity|].
  destruct l as [|s' l].
  - now exists (price s).
  - destruct IH as [z Hz]. unfold Math_min in *. simpl in *.
    rewrite Hz. simpl. now eexists.
Qed.

Lemma price_range_attained (l : list SizeInfo) :
  l <> [] ->
  exists lo hi,
    Math_min (map (fun s => Fin (price s)) l) = Fin lo /\
    Math_max (map (fun s => Fin (price s)) l) = Fin hi /\
    (exists s, In s l /\ price s = lo) /\
    (exists s, In s l /\ price s = hi) /\
    (forall s, In s l -> lo <= price s <= hi).
Proof.
  induction l as [|a l IH]; [congruence|]. intros _.
  destruct l as [|b l].
  - exists (price a), (price a). cbn.
    repeat split; try (exists a; split; [now left | reflexivity]);
      destruct H as [<-|[]]; lia.
  - destruct IH as [lo [hi [Hlo [Hhi [[sl [Hsl El]] [[sh [Hsh Eh]] Hb]]]]]];
      [discriminate|].
    exists (Z.min (price a) lo), (Z.max (price a) hi).
    unfold Math_min, Math_max in *.
    cbn [map fold_right] in *. rewrite Hlo, Hhi. cbn [num_min2 num_max2].
    split; [reflexivity|]. split; [reflexivity|]. split; [|split].
    + destruct (Z.min_spec (price a) lo) as [[_ ->]|[_ ->]].
      * exists a. split; [now left | reflexivity].
      * exists sl. split; [now right | exact El].
    + destruct (Z.max_spec (price a) hi) as [[_ ->]|[_ ->]].
      * exists sh. split; [now right | exact Eh].
      * exists a. split; [now left | reflexivity].
    + intros s [<-|Hs]; [lia|]. specialize (Hb s Hs). lia.
Qed.

Lemma minPrice_key (d : App.Dress) : price_key (App.minPrice d).
Proof.
  unfold App.minPrice. pose proof (Math_min_prices (App.sizes d)) as H.
  destruct (App.sizes d).
  - rewrite H. constructor.
  - destruct H as [z ->]. constructor.
Qed.

(** The key the comparator computes is the minimum variant price. *)
Lemma minPrice_is_min_variant_price (d : App.Dress) (k : number) :
  min_variant_price d k <-> App.minPrice d = k.
Proof.
  unfold App.minPrice. split.
  - intros [m [s [Hs Es]] Hlow | Hnone].
    + destruct (price_range_attained (App.sizes d))
        as [lo [hi [Hlo [_ [[sl [Hsl El]] [_ Hb]]]]]].
      { intro E. rewrite E in Hs. contradiction. }
      rewrite Hlo. f_equal.
      pose proof (Hlow sl Hsl). pose proof (Hb s Hs). lia.
    + now rewrite Hnone.
  - intros <-. destruct (App.sizes d) as [|s0 l] eqn:E.
    + now apply min_of_none.
    + destruct (price_range_attained (s0 :: l))
        as [lo [hi [Hlo [_ [Hatt [_ Hb]]]]]]; [discriminate|].
      rewrite Hlo. apply min_of_variants; rewrite E.
      * exact Hatt.
      * intros s Hs. now apply Hb.
Qed.

Lemma minPrice_no_sizes (d : App.Dress) :
  App.sizes d = [] <-> App.minPrice d = PInf.
Proof.
  unfold App.minPrice. pose proof (Math_min_prices (App.sizes d)) as H.
  destruct (App.sizes d).
  - split; auto.
  - destruct H as [z ->]. split; discriminate.
Qed.

Lemma num_leb_total_keys (a b : number) :
  price_key a -> price_key b -> num_leb a b = true \/ num_leb b a = true.
Proof.
  intros [x|] [y|]; simpl; auto.
  destruct (Z.leb_spec x y); [now left|right]. apply Z.leb_le. lia.
Qed.

Lemma num_leb_trans_keys (a b c : number) :
  price_key a -> price_key b -> price_key c ->
  num_leb a b = true -> num_leb b c = true -> num_leb a c = true.
Proof.
  intros [x|] [y|] [z|]; simpl; auto; try discriminate.
  rewrite !Z.leb_le. lia.
Qed.

Lemma num_leb_antisym_keys (a b : number) :
  price_key a -> price_key b ->
  num_leb a b = true -> num_leb b a = true -> a = b.
Proof.
  intros [x|] [y|]; simpl; auto; try discriminate.
  rewrite !Z.leb_le. intros. f_equal. lia.
Qed.

Lemma num_eqb_eq (a b : number) : num_eqb a b = true -> a = b.
Proof.
  destruct a, b; simpl; try discriminate; auto.
  rewrite Z.eqb_eq. now intros ->.
Qed.

(** On price keys the comparator [a - b] reads as the order [<=]. *)
Lemma sub_sign_keys (a b : number) :
  price_key a -> price_key b ->
  match num_sign (num_sub a b) with
  | Some Gt => false
  | _ => true
  end = num_leb a b.
Proof.
  intros [x|] [y|]; simpl; auto.
  destruct (Z.compare_spec (x - y) 0); symmetry.
  - apply Z.leb_le. lia.
  - apply Z.leb_le. lia.
  - apply Z.leb_gt. lia.
Qed.

Section QueryEngineFacts.
Variable fuse_search : list App.Dress -> string -> list App.Dress.
Variable Date_getTime : string -> number.

Lemma sort_le_price_asc (a b : App.Dress) :
  sort_le (App.compareDresses Date_getTime "price_asc") a b = price_le a b.
Proof.
  unfold sort_le, SortCompare, App.compareDresses, price_le. simpl.
  rewrite <- (sub_sign_keys _ _ (minPrice_key a) (minPrice_key b)).
  destruct (num_sign _) as [[]|]; reflexivity.
Qed.

Lemma sort_le_price_desc (a b : App.Dress) :
  sort_le (App.compareDresses Date_getTime "price_desc") a b = price_ge a b.
Proof.
  unfold sort_le, SortCompare, App.compareDresses, price_ge, price_le. simpl.
  rewrite <- (sub_sign_keys _ _ (minPrice_key b) (minPrice_key a)).
  destruct (num_sign _) as [[]|]; reflexivity.
Qed.

Lemma sortStage_price_asc (l : list App.Dress) :
  App.sortStage Date_getTime "price_asc" l = stable_sort price_le l.
Proof. apply stable_sort_ext, sort_le_price_asc. Qed.

Lemma sortStage_price_desc (l : list App.Dress) :
  App.sortStage Date_getTime "price_desc" l = stable_sort price_ge l.
Proof. apply stable_sort_ext, sort_le_price_desc. Qed.

Lemma price_le_total (a b : App.Dress) :
  price_le a b = true \/ price_le b a = true.
Proof. apply num_leb_total_keys; apply minPrice_key. Qed.

Lemma price_le_trans (a b c : App.Dress) :
  price_le a b = true -> price_le b c = true -> price_le a c = true.
Proof. apply num_leb_trans_keys; apply minPrice_key. Qed.

Lemma price_ge_total (a b : App.Dress) :
  price_ge a b = true \/ price_ge b a = true.
Proof. unfold price_ge. apply price_le_total. Qed.

Lemma price_ge_trans (a b c : App.Dress) :
  price_ge a b = true -> price_ge b c = true -> price_ge a c = true.
Proof. unfold price_ge. intros H1 H2. now apply price_le_trans with b. Qed.

Lemma price_le_refl_on_tie (p : number) (a b : App.Dress) :
  priced_at p a = true -> priced_at p b = true -> price_le a b = true.
Proof.
  unfold priced_at. intros Ha Hb. apply num_eqb_eq in Ha, Hb. unfold price_le.
  rewrite Ha, Hb. pose proof (minPrice_key a) as K. rewrite Ha in K.
  destruct K; simpl; auto. apply Z.leb_refl.
Qed.
End QueryEngineFacts.

Lemma no_variants_minPrice (d : App.Dress) :
  no_variants d = true -> App.minPrice d = PInf.
Proof.
  intro H. apply minPrice_no_sizes. unfold no_variants, has_variants in H.
  destruct (App.sizes d); [reflexivity | discriminate].
Qed.

Lemma has_variants_minPrice (d : App.Dress) :
  has_variants d = true -> exists z, App.minPrice d = Fin z.
Proof.
  unfold has_variants, App.minPrice. intro H.
  pose proof (Math_min_prices (App.sizes d)) as M.
  destruct (App.sizes d); [discriminate | exact M].
Qed.

(** Where a record lands among priced records followed by unpriced ones. *)
Lemma insert_priced_asc (x : App.Dress) (p e : list App.Dress) :
  has_variants x = true ->
  Forall (fun d => no_variants d = true) e ->
  insert_sorted price_le x (p ++ e) = (insert_sorted price_le x p ++ e)%list.
Proof.
  intros Hx He. induction p as [|y p IH]; simpl.
  - destruct e as [|y e]; simpl; [reflexivity|].
    inversion He as [|? ? Hy _]; subst.
    unfold price_le. rewrite (no_variants_minPrice y Hy).
    destruct (has_variants_minPrice x Hx) as [z ->]. reflexivity.
  - destruct (price_le x y); [reflexivity|]. now rewrite IH.
Qed.

Lemma insert_unpriced_asc (x : App.Dress) (p e : list App.Dress) :
  no_variants x = true ->
  Forall (fun d => has_variants d = true) p ->
  Forall (fun d => no_variants d = true) e ->
  insert_sorted price_le x (p ++ e) = (p ++ x :: e)%list.
Proof.
  intros Hx Hp He. induction p as [|y p IH]; simpl.
  - destruct e as [|y e]; simpl; [reflexivity|].
    inversion He as [|? ? Hy _]; subst.
    unfold price_le.
    rewrite (no_variants_minPrice x Hx), (no_variants_minPrice y Hy).
    reflexivity.
  - inversion Hp as [|? ? Hy Hp']; subst.
    unfold price_le at 1. rewrite (no_variants_minPrice x Hx).
    destruct (has_variants_minPrice y Hy) as [z ->]. simpl.
    now rewrite IH.
Qed.

Lemma insert_priced_desc (x : App.Dress) (p e : list App.Dress) :
  has_variants x = true ->
  Forall (fun d => no_variants d = true) e ->
  insert_sorted price_ge x (e ++ p) = (e ++ insert_sorted price_ge x p)%list.
Proof.
  intros Hx He. induction e as [|y e IH]; simpl; [reflexivity|].
  inversion He as [|? ? Hy He']; subst.
  unfold price_ge at 1, price_le. rewrite (no_variants_minPrice y Hy).
  destruct (has_variants_minPrice x Hx) as [z ->]. simpl.
  now rewrite IH.
Qed.

Lemma insert_unpriced_desc (x : App.Dress) (s : list App.Dress) :
  no_variants x = true ->
  insert_sorted price_ge x s = x :: s.
Proof.
  intros Hx. destruct s as [|y s]; simpl; [reflexivity|].
  unfold price_ge, price_le. rewrite (no_variants_minPrice x Hx).
  destruct (minPrice_key y); reflexivity.
Qed.

Lemma stable_sort_priced_Forall (le : App.Dress -> App.Dress -> bool)
    (P : App.Dress -> bool) (l : list App.Dress) :
  Forall (fun d => P d = true) (stable_sort le (filter P l)).
Proof.
  rewrite Forall_forall. intros d Hd.
  eapply Permutation_in in Hd; [|apply Permutation_sym, stable_sort_perm].
  now apply filter_In in Hd.
Qed.

Lemma filter_Forall_true {A : Type} (P : A -> bool) (l : list A) :
  Forall (fun d => P d = true) (filter P l).
Proof. rewrite Forall_forall. intros d Hd. now apply filter_In in Hd. Qed.

(** The price sorts keep unpriced records together, in input order, after
    (ascending) or before (descending) the priced ones. *)
Lemma stable_sort_price_le_split (l : list App.Dress) :
  stable_sort price_le l =
  (stable_sort price_le (filter has_variants l) ++ filter no_variants l)%list.
Proof.
  induction l as [|x l IH]; simpl; [reflexivity|].
  rewrite IH. unfold no_variants at 2.
  destruct (has_variants x) eqn:Hx; simpl.
  - apply insert_priced_asc; [exact Hx | apply filter_Forall_true].
  - apply insert_unpriced_asc.
    + unfold no_variants. now rewrite Hx.
    + apply stable_sort_priced_Forall.
    + apply filter_Forall_true.
Qed.

Lemma stable_sort_price_ge_split (l : list App.Dress) :
  stable_sort price_ge l =
  (filter no_variants l ++ stable_sort price_ge (filter has_variants l))%list.
Proof.
  induction l as [|x l IH]; simpl; [reflexivity|].
  rewrite IH. unfold no_variants at 2.
  destruct (has_variants x) eqn:Hx; simpl.
  - apply insert_priced_desc; [exact Hx | apply filter_Forall_true].
  - apply insert_unpriced_desc. unfold no_variants. now rewrite Hx.
Qed.

(* ================================================================== *)
(** * The query engine: category filter, search, sort *)

Section QueryEngineClaims.
Variable fuse_search : list App.Dress -> string -> list App.Dress.
Variable Date_getTime : string -> number.

Lemma sortStage_perm (sortBy : string) (l : list App.Dress) :
  Permutation l (App.sortStage Date_getTime sortBy l).
Proof. apply stable_sort_perm. Qed.

(** C1, as the code has it.  The pipeline is a total function: for every
    record list and every category, search text and sort key it returns a
    rearrangement of the records that passed the two filters, records
    without variants included.  Such a record is not set aside: its derived
    minimum price is [+Infinity], and the price sorts rank it by that
    value, after every priced record under [price_asc] and before every
    priced record under [price_desc], unpriced records keeping their input
    order among themselves. *)
Theorem unpriced_records_ranked_at_infinity
    (dresses : list App.Dress) (selectedCategory searchQuery sortBy : string) :
  Permutation
    (App.fuzzySearch fuse_search searchQuery
       (App.categoryFilter selectedCategory dresses))
    (App.filteredAndSortedDresses fuse_search Date_getTime
       dresses selectedCategory searchQuery sortBy) /\
  (forall d, App.sizes d = [] -> App.minPrice d = PInf) /\
  App.sortStage Date_getTime "price_asc" dresses =
    (App.sortStage Date_getTime "price_asc" (filter has_variants dresses)
     ++ filter no_variants dresses)%list /\
  App.sortStage Date_getTime "price_desc" dresses =
    (filter no_variants dresses
     ++ App.sortStage Date_getTime "price_desc"
          (filter has_variants dresses))%list.
Proof.
  split; [apply sortStage_perm|].
  split; [intros d Hd; now apply minPrice_no_sizes|].
  rewrite !sortStage_price_asc, !sortStage_price_desc.
  split; [apply stable_sort_price_le_split | apply stable_sort_price_ge_split].
Qed.

(** C2.  The key of the price sorts is each record's minimum variant
    price: the least of the prices of its variants, a record without
    variants counting as [+Infinity].  Under [price_asc] (resp.
    [price_desc]) the sort stage returns the records it was given, ordered
    by non-decreasing (resp. non-increasing) minimum variant price; the
    records sharing a minimum price come out in the order the previous stage
    gave them; and when no two records share a minimum price the ascending
    result is the reverse of the descending one. *)
Theorem price_sort_ordered_stable_reversible (l : list App.Dress) :
  let asc := App.sortStage Date_getTime "price_asc" l in
  let desc := App.sortStage Date_getTime "price_desc" l in
  (forall d k, min_variant_price d k <-> App.minPrice d = k) /\
  (Permutation l asc /\
   StronglySorted (fun a b => price_le a b = true) asc /\
   StronglySorted
     (fun a b => forall ka kb, min_variant_price a ka ->
                               min_variant_price b kb ->
                               num_leb ka kb = true) asc) /\
  (Permutation l desc /\
   StronglySorted (fun a b => price_le b a = true) desc /\
   StronglySorted
     (fun a b => forall ka kb, min_variant_price a ka ->
                               min_variant_price b kb ->
                               num_leb kb ka = true) desc) /\
  (forall p, filter (priced_at p) asc = filter (priced_at p) l) /\
  (forall p, filter (priced_at p) desc = filter (priced_at p) l) /\
  (NoDup (map App.minPrice l) -> asc = rev desc).
Proof.
  cbv zeta. rewrite sortStage_price_asc, sortStage_price_desc.
  assert (Hasc : StronglySorted (fun a b => price_le a b = true)
                   (stable_sort price_le l))
    by (apply stable_sort_sorted; [apply price_le_total | apply price_le_trans]).
  assert (Hdesc : StronglySorted (fun a b => price_le b a = true)
                    (stable_sort price_ge l))
    by (apply (stable_sort_sorted price_ge);
        [apply price_ge_total | apply price_ge_trans]).
  split; [apply minPrice_is_min_variant_price|].
  split; [split; [apply stable_sort_perm | split; [exact Hasc|]]|].
  { eapply StronglySorted_impl; [|exact Hasc].
    intros a b Hab ka kb Ha Hb.
    apply minPrice_is_min_variant_price in Ha, Hb. now subst. }
  split; [split; [apply stable_sort_perm | split; [exact Hdesc|]]|].
  { eapply StronglySorted_impl; [|exact Hdesc].
    intros a b Hab ka kb Ha Hb.
    apply minPrice_is_min_variant_price in Ha, Hb. now subst. }
  split; [|split].
  - intro p. apply stable_sort_filter. apply price_le_refl_on_tie.
  - intro p. apply stable_sort_filter. intros x y Hx Hy.
    unfold price_ge. now apply price_le_refl_on_tie with p.
  - intro Hnd.
    apply sorted_perm_unique with (R := fun a b => price_le a b = true).
    + intros x y Hx Hy Hxy Hyx.
      assert (Hk : App.minPrice x = App.minPrice y)
        by (apply num_leb_antisym_keys; auto using minPrice_key).
      assert (Hl : forall z, In z (stable_sort price_le l) -> In z l)
        by (intros z Hz; eapply Permutation_in;
            [apply Permutation_sym, stable_sort_perm | exact Hz]).
      apply Hl in Hx, Hy. clear - Hnd Hk Hx Hy.
      induction l as [|a l' IH]; [contradiction|].
      simpl in Hnd. inversion Hnd as [|? ? Hnotin Hnd']; subst.
      destruct Hx as [<-|Hx], Hy as [<-|Hy]; auto.
      * exfalso. apply Hnotin. rewrite Hk. now apply in_map.
      * exfalso. apply Hnotin. rewrite <- Hk. now apply in_map.
    + exact Hasc.
    + apply StronglySorted_rev in Hdesc. exact Hdesc.
    + eapply Permutation_trans;
        [apply Permutation_sym, stable_sort_perm|].
      eapply Permutation_trans; [apply (stable_sort_perm price_ge)|].
      apply Permutation_rev.
Qed.

(** C3.  With a requested category other than "All" the category stage
    returns the records whose [category] equals it, and only those, in
    their original relative order; with "All" it returns the list
    unchanged. *)
Theorem category_filter_exact (L : list App.Dress) (C : string) :
  (C <> "All" ->
   App.categoryFilter C L =
     filter (fun d => (App.category d =? C)%string) L /\
   (forall d, In d (App.categoryFilter C L) <->
              In d L /\ App.category d = C)) /\
  App.categoryFilter "All" L = L.
Proof.
  split; [|reflexivity].
  intro HC. unfold App.categoryFilter.
  apply String.eqb_neq in HC. rewrite HC. simpl.
  split; [reflexivity|].
  intro d. rewrite filter_In, String.eqb_eq. reflexivity.
Qed.

(** C4.  A search text is empty once trimmed exactly when it is made of
    white space only, the empty text and the white space beyond ASCII
    (U+00A0, U+2028, U+FEFF and the like) included.  For such a text the
    fuzzy-search stage returns the list it was given, the category-filtered
    records in the same order, and the pipeline sorts exactly that list. *)
Theorem empty_search_keeps_all
    (dresses : list App.Dress) (selectedCategory searchQuery sortBy : string) :
  (trim searchQuery = "" <-> white_space_only searchQuery = true) /\
  (trim searchQuery = "" ->
   App.fuzzySearch fuse_search searchQuery
     (App.categoryFilter selectedCategory dresses)
   = App.categoryFilter selectedCategory dresses /\
   App.filteredAndSortedDresses fuse_search Date_getTime
     dresses selectedCategory searchQuery sortBy
   = App.sortStage Date_getTime sortBy
       (App.categoryFilter selectedCategory dresses)).
Proof.
  split; [apply trim_empty_iff|].
  intro Htrim. unfold App.filteredAndSortedDresses, App.fuzzySearch.
  rewrite Htrim. simpl. split; reflexivity.
Qed.

End QueryEngineClaims.

(** C1, as stated, fails: a record without variants takes part in the price
    comparison with the price [+Infinity], and the descending sort moves it
    in front of a record priced 800 that stood before it. *)
Lemma unpriced_record_is_ranked :
  App.sizes dress_C3 = [] /\
  App.minPrice dress_C3 = PInf /\
  App.compareDresses no_date "price_desc" dress_B2 dress_C3 = PInf /\
  App.compareDresses no_date "price_asc" dress_C3 dress_A1 = PInf /\
  App.filteredAndSortedDresses no_fuse no_date
    [dress_B2; dress_C3] "All" "" "price_desc" = [dress_C3; dress_B2] /\
  App.filteredAndSortedDresses no_fuse no_date
    [dress_C3; dress_A1] "All" "" "price_asc" = [dress_A1; dress_C3].
Proof. repeat split; reflexivity. Qed.

Lemma unpriced_records_ranked_at_infinity_witness :
  App.sizes dress_C3 = [] /\ App.minPrice dress_C3 = PInf.
Proof.
  split; [reflexivity|].
  apply (proj1 (proj2 (unpriced_records_ranked_at_infinity
                         no_fuse no_date [dress_C3] "All" "" "price_asc"))).
  reflexivity.
Defined.

Lemma price_sort_ordered_stable_reversible_witness :
  NoDup (map App.minPrice [dress_A1; dress_C3; dress_B2]) /\
  App.sortStage no_date "price_asc" [dress_A1; dress_C3; dress_B2] =
  rev (App.sortStage no_date "price_desc" [dress_A1; dress_C3; dress_B2]).
Proof.
  assert (H : NoDup (map App.minPrice [dress_A1; dress_C3; dress_B2])).
  { repeat constructor; simpl; intuition discriminate. }
  split; [exact H|].
  apply (price_sort_ordered_stable_reversible no_date
           [dress_A1; dress_C3; dress_B2]).
  exact H.
Defined.

Lemma category_filter_exact_witness :
  "Summer" <> "All" /\
  App.categoryFilter "Summer" [dress_A1; dress_B2] = [dress_A1].
Proof.
  assert (H : "Summer" <> "All") by discriminate.
  split; [exact H|].
  rewrite (proj1 (proj1 (category_filter_exact [dress_A1; dress_B2] "Summer") H)).
  reflexivity.
Defined.

Lemma empty_search_keeps_all_witness :
  trim blank_text = "" /\
  App.fuzzySearch no_fuse blank_text
    (App.categoryFilter "All" [dress_A1; dress_B2])
  = [dress_A1; dress_B2].
Proof.
  split; [reflexivity|].
  rewrite (proj1 (proj2 (empty_search_keeps_all no_fuse no_date
                           [dress_A1; dress_B2] "All" blank_text "newest")
                    eq_refl)).
  reflexivity.
Defined.

(* ================================================================== *)
(** * The routes *)

Import Server.

Ltac run_route :=
  unfold post_admin_dresses, put_admin_dresses, post_admin_dresses_req,
    put_admin_dresses_req, delete_admin_dresses,
    authenticateToken, upload_single, disk_store, bind_fields, Body.sent,
    db_insert, db_update, db_delete, db_get_image_url,
    fs_existsSync, fs_unlinkSync,
    response_of, world_of, events_of, worlds_of,
    try_catch, bind, ret, throw, effect, get_world;
  cbn [fst snd map app message dresses files sqlite_sequence unlink_fails
       set_dresses set_files option_map
       Body.Raw.code Body.Raw.name Body.Raw.category Body.Raw.note
       Body.Raw.sizes Body.code Body.name Body.category Body.note Body.sizes].

Lemma existsb_has_code_true (c : string) (rows : list Row) :
  (exists r, In r rows /\ code r = c) -> existsb (has_code c) rows = true.
Proof.
  intros [r [Hin Hc]]. apply existsb_exists. exists r. split; [exact Hin|].
  unfold has_code. now apply String.eqb_eq.
Qed.

Lemma existsb_has_code_false (c : string) (rows : list Row) :
  (forall r, In r rows -> code r <> c) -> existsb (has_code c) rows = false.
Proof.
  intro H. apply not_true_is_false. intro E.
  apply existsb_exists in E. destruct E as [r [Hin Hc]].
  apply (H r Hin). unfold has_code in Hc. now apply String.eqb_eq.
Qed.

Lemma existsb_has_id_false (i : Z) (rows : list Row) :
  (forall r, In r rows -> id r <> i) -> existsb (has_id i) rows = false.
Proof.
  intro H. apply not_true_is_false. intro E.
  apply existsb_exists in E. destruct E as [r [Hin Hc]].
  apply (H r Hin). unfold has_id in Hc. now apply Z.eqb_eq.
Qed.

Lemma find_has_id_none (i : Z) (rows : list Row) :
  (forall r, In r rows -> id r <> i) -> find (has_id i) rows = None.
Proof.
  intro H. destruct (find (has_id i) rows) as [r|] eqn:E; [|reflexivity].
  apply find_some in E. destruct E as [Hin Hi].
  exfalso. apply (H r Hin). now apply Z.eqb_eq.
Qed.

Lemma mem_In (p : string) (l : list string) : mem p l = true <-> In p l.
Proof.
  unfold mem. rewrite existsb_exists. split.
  - intros [q [Hin Hq]]. apply String.eqb_eq in Hq. now subst.
  - intro H. exists p. split; [exact H | apply String.eqb_refl].
Qed.

Lemma update_no_match (i : Z) (f : Row -> Row) (rows : list Row) :
  (forall r, In r rows -> id r <> i) ->
  map (fun r => if has_id i r then f r else r) rows = rows.
Proof.
  intro H. induction rows as [|r rows IH]; simpl; [reflexivity|].
  rewrite IH by (intros r' Hr'; apply H; now right).
  assert (E : has_id i r = false).
  { apply Z.eqb_neq. apply H. now left. }
  now rewrite E.
Qed.

Lemma create_with_used_code
    (w : World) (body : Body.t) (file : option string) (now : string) :
  existsb (has_code (Body.code body)) (dresses w) = true ->
  let run := post_admin_dresses GoodToken body file now w in
  response_of run
    = Some (Json_error 400 "UNIQUE constraint failed: dresses.code") /\
  dresses (world_of run) = dresses w /\
  sqlite_sequence (world_of run) = sqlite_sequence w /\
  (forall i, ~ In (RowInserted i) (events_of run)).
Proof.
  intros Hdup.
  destruct file as [filename|]; run_route; rewrite Hdup; cbn.
  - repeat split; try reflexivity. intros i [H|[]]. discriminate.
  - repeat split; try reflexivity. intros i [].
Qed.

(** C6.  In a store that holds a record with code [c], a create request
    with the same code fails: the response is the 400 carrying the store's
    uniqueness error on [dresses.code], no row is inserted and the table is
    the one it was. *)
Theorem duplicate_code_rejected
    (w : World) (body : Body.t) (file : option string) (now : string) :
  (exists r, In r (dresses w) /\ code r = Body.code body) ->
  let run := post_admin_dresses GoodToken body file now w in
  response_of run
    = Some (Json_error 400 "UNIQUE constraint failed: dresses.code") /\
  dresses (world_of run) = dresses w /\
  sqlite_sequence (world_of run) = sqlite_sequence w /\
  (forall i, ~ In (RowInserted i) (events_of run)).
Proof.
  intros Hdup. apply create_with_used_code.
  now apply existsb_has_code_true.
Qed.

Lemma duplicate_code_rejected_witness :
  (exists r, In r (dresses shop) /\ code r = Body.code body_A1) /\
  response_of (post_admin_dresses GoodToken body_A1
                 (Some "1700000000009-9.jpg") "2024-02-01 09:00:00" shop)
    = Some (Json_error 400 "UNIQUE constraint failed: dresses.code") /\
  dresses (world_of (post_admin_dresses GoodToken body_A1
                       (Some "1700000000009-9.jpg") "2024-02-01 09:00:00" shop))
    = [row_A1; row_B2].
Proof.
  assert (H : exists r, In r (dresses shop) /\ code r = Body.code body_A1).
  { exists row_A1. split; [now left | reflexivity]. }
  split; [exact H|].
  pose proof (duplicate_code_rejected shop body_A1
                (Some "1700000000009-9.jpg") "2024-02-01 09:00:00" H) as T.
  cbv zeta in T. destruct T as [T1 [T2 _]]. split; [exact T1 | exact T2].
Defined.

(** Two creates in a row with one code: the second is rejected and the
    table holds the first record only. *)
Lemma second_create_with_same_code
    (w : World) (b1 b2 : Body.t) (f1 f2 : option string) (t1 t2 : string) :
  (forall r, In r (dresses w) -> code r <> Body.code b1) ->
  Body.code b2 = Body.code b1 ->
  let w1 := world_of (post_admin_dresses GoodToken b1 f1 t1 w) in
  let run := post_admin_dresses GoodToken b2 f2 t2 w1 in
  response_of run
    = Some (Json_error 400 "UNIQUE constraint failed: dresses.code") /\
  filter (has_code (Body.code b1)) (dresses (world_of run))
    = filter (has_code (Body.code b1)) (dresses w1) /\
  List.length (filter (has_code (Body.code b1)) (dresses w1)) = 1%nat.
Proof.
  intros Hfresh Hsame. cbv zeta.
  assert (Hw1 : exists row, code row = Body.code b1 /\
            dresses (world_of (post_admin_dresses GoodToken b1 f1 t1 w))
              = (dresses w ++ [row])%list).
  { pose proof (existsb_has_code_false _ _ Hfresh) as E.
    destruct f1; run_route; rewrite E; cbn; eexists; split;
      try reflexivity; reflexivity. }
  destruct Hw1 as [row [Hrow Hw1]].
  assert (Hdup : exists r,
            In r (dresses (world_of (post_admin_dresses GoodToken b1 f1 t1 w)))
            /\ code r = Body.code b2).
  { exists row. rewrite Hw1, Hsame. split; [|exact Hrow].
    apply in_or_app. right. now left. }
  apply existsb_has_code_true in Hdup.
  destruct (create_with_used_code _ b2 f2 t2 Hdup) as [R [D _]].
  split; [exact R|]. split; [now rewrite D|].
  rewrite Hw1, filter_app. simpl.
  assert (E : filter (has_code (Body.code b1)) (dresses w) = []).
  { clear - Hfresh. induction (dresses w) as [|r rows IH]; [reflexivity|].
    simpl. assert (N : has_code (Body.code b1) r = false).
    { apply String.eqb_neq. apply Hfresh. now left. }
    rewrite N. apply IH. intros r' Hr'. apply Hfresh. now right. }
  rewrite E. unfold has_code. rewrite Hrow, String.eqb_refl. reflexivity.
Qed.

(** C7 asks for a not-found failure.  What the update route does on an id
    the table does not hold: the UPDATE statement matches no row and raises
    nothing, the table is left as it was, and the response is the success
    object, not an error. *)
Theorem update_of_absent_id_reports_success
    (w : World) (rowid : Z) (body : Body.t) (file : option string) :
  (forall r, In r (dresses w) -> id r <> rowid) ->
  let run := put_admin_dresses GoodToken rowid body file w in
  response_of run = Some Json_success /\
  dresses (world_of run) = dresses w.
Proof.
  intro Habsent. pose proof (existsb_has_id_false _ _ Habsent) as E.
  destruct file as [filename|]; run_route; rewrite E; cbn;
    (split; [reflexivity | now apply update_no_match]).
Qed.

Lemma update_of_absent_id_reports_success_witness :
  (forall r, In r (dresses shop) -> id r <> 7) /\
  response_of (put_admin_dresses GoodToken 7 body_E5 None shop)
    = Some Json_success /\
  dresses (world_of (put_admin_dresses GoodToken 7 body_E5 None shop))
    = dresses shop.
Proof.
  assert (H : forall r, In r (dresses shop) -> id r <> 7).
  { intros r [<-|[<-|[]]]; discriminate. }
  split; [exact H|].
  exact (update_of_absent_id_reports_success shop 7 body_E5 None H).
Defined.

(** The sibling route: the delete route answers 404 on the same id. *)
Lemma delete_of_absent_id_is_404 (w : World) (rowid : Z) :
  (forall r, In r (dresses w) -> id r <> rowid) ->
  delete_admin_dresses GoodToken rowid w
    = (Returned (Json_error 404 "Dress not found"), w, []).
Proof.
  intro Habsent. run_route. now rewrite (find_has_id_none _ _ Habsent).
Qed.

(** C5, as the code has it.  The create route checks nothing about the
    variant set: for a request with an accepted token that carries the five
    text fields and a code the table does not hold yet, it answers with the
    new id and appends one row that carries the fields and the text of the
    variant set exactly as supplied, so the persisted variant set is empty
    exactly when the supplied one is.  When an image comes with the request,
    its file is written before the row is inserted and the row's
    [image_url] names that file. *)
Theorem create_persists_request_as_supplied
    (w : World) (body : Body.t) (file : option string) (now : string) :
  (forall r, In r (dresses w) -> code r <> Body.code body) ->
  let run := post_admin_dresses GoodToken body file now w in
  let rowid := sqlite_sequence w + 1 in
  exists imageUrl row,
    response_of run = Some (Json_created rowid imageUrl) /\
    dresses (world_of run) = (dresses w ++ [row])%list /\
    id row = rowid /\ code row = Body.code body /\
    name row = Body.name body /\ category row = Body.category body /\
    note row = Body.note body /\ sizes_json row = Body.sizes body /\
    created_at row = now /\ image_url row = imageUrl /\
    (forall filename, file = Some filename ->
       imageUrl = "/uploads/" ++ filename /\
       events_of run = [FileWritten imageUrl; RowInserted rowid] /\
       In imageUrl (files (world_of run))).
Proof.
  intro Hfresh. pose proof (existsb_has_code_false _ _ Hfresh) as E.
  destruct file as [filename|]; run_route; rewrite E; cbn;
    eexists; eexists; (split; [reflexivity|]); (split; [reflexivity|]);
    cbn; repeat (split; [reflexivity|]).
  - intros f Hf. injection Hf as <-. split; [reflexivity|].
    split; [reflexivity|].
    match goal with
    | |- context [mem ?p ?l] => destruct (mem p l) eqn:M
    end.
    + now apply mem_In.
    + apply in_or_app. right. now left.
  - discriminate.
Qed.

Lemma create_persists_request_as_supplied_witness :
  (forall r, In r (dresses shop) -> code r <> Body.code body_E5) /\
  exists imageUrl row,
    response_of (post_admin_dresses GoodToken body_E5
                   (Some "1700000000005-5.png") "2024-02-01 09:00:00" shop)
      = Some (Json_created 3 imageUrl) /\
    dresses (world_of (post_admin_dresses GoodToken body_E5
                         (Some "1700000000005-5.png") "2024-02-01 09:00:00"
                         shop))
      = [row_A1; row_B2; row] /\
    sizes_json row = "[]" /\
    image_url row = "/uploads/1700000000005-5.png" /\
    In imageUrl (files (world_of (post_admin_dresses GoodToken body_E5
                         (Some "1700000000005-5.png") "2024-02-01 09:00:00"
                         shop))).
Proof.
  assert (H : forall r, In r (dresses shop) -> code r <> Body.code body_E5).
  { intros r [<-|[<-|[]]]; discriminate. }
  split; [exact H|].
  destruct (create_persists_request_as_supplied shop body_E5
              (Some "1700000000005-5.png") "2024-02-01 09:00:00" H)
    as [imageUrl [row [R [D [_ [_ [_ [_ [_ [S [_ [U F]]]]]]]]]]]].
  destruct (F _ eq_refl) as [Eu [_ Hin]].
  exists imageUrl, row. split; [exact R|]. split; [exact D|].
  split; [exact S|]. split; [now rewrite U, Eu | exact Hin].
Defined.

(** C5, as stated, fails.  Starting from the empty store, a create request
    whose variant set is the empty array and which carries no image is
    accepted: no validation error is raised, and the store then holds a
    record with zero variants whose image reference names no file. *)
Lemma create_accepts_no_variant_no_image :
  let run := post_admin_dresses GoodToken body_E5 None "2024-02-01 09:00:00"
               initial_world in
  response_of run = Some (Json_created 1 "/uploads/undefined") /\
  (exists r, In r (dresses (world_of run)) /\
             sizes_json r = "[]" /\
             sample_parse (sizes_json r) = Some (JSizes []) /\
             ~ In (image_url r) (files (world_of run))).
Proof.
  cbv zeta. split; [reflexivity|].
  eexists. split; [left; reflexivity|]. split; [reflexivity|].
  split; [reflexivity|]. intros [].
Qed.

(** A create request that lacks its [code] field fails where the
    statement binds its parameters: the answer is a 400 and no row is
    inserted. *)
Lemma create_without_code_is_400
    (w : World) (body : Body.Raw.t) (file : option string) (now : string) :
  Body.Raw.code body = None ->
  let run := post_admin_dresses_req GoodToken body file now w in
  (exists text, response_of run = Some (Json_error 400 text)) /\
  dresses (world_of run) = dresses w.
Proof.
  intro H. cbv zeta. destruct file; run_route; rewrite H; cbn;
    (split; [eexists; reflexivity | reflexivity]).
Qed.

(** ** Delete *)

(** The run of the delete route, case by case. *)
Lemma delete_run (w : World) (rowid : Z) :
  delete_admin_dresses GoodToken rowid w =
  match find (has_id rowid) (dresses w) with
  | None => (Returned (Json_error 404 "Dress not found"), w, [])
  | Some r =>
      let p := image_url r in
      if mem p (files w) then
        if mem p (unlink_fails w)
        then (Returned (Json_error 500 "EACCES: permission denied"), w, [])
        else
          let w1 := set_files w (without_file p (files w)) in
          let w2 := set_dresses w1 (without_id rowid (dresses w)) in
          (Returned Json_success, w2,
           [(FileUnlinked p, w1); (RowsDeleted rowid, w2)])
      else
        let w2 := set_dresses w (without_id rowid (dresses w)) in
        (Returned Json_success, w2, [(RowsDeleted rowid, w2)])
  end.
Proof.
  run_route. destruct (find (has_id rowid) (dresses w)) as [r|]; cbn;
    [|reflexivity].
  destruct (mem (image_url r) (files w)) eqn:M; cbn.
  - rewrite M. cbn. destruct (mem (image_url r) (unlink_fails w)); reflexivity.
  - reflexivity.
Qed.

Lemma without_id_absent (rowid : Z) (rows : list Row) (r : Row) :
  In r (without_id rowid rows) -> id r <> rowid.
Proof.
  unfold without_id. rewrite filter_In. intros [_ H] E.
  unfold has_id in H. apply Z.eqb_eq in E. rewrite E in H. discriminate.
Qed.

Lemma select_dresses_In (category search : option string) (w : World) (r : Row) :
  In r (select_dresses category search w) <->
  In r (dresses w) /\
  category_condition category r && search_condition search r = true.
Proof.
  unfold select_dresses, order_by_created_at_desc. split; intro H.
  - eapply Permutation_in in H; [|apply Permutation_sym, stable_sort_perm].
    now apply filter_In in H.
  - eapply Permutation_in; [apply stable_sort_perm|].
    now apply filter_In.
Qed.

Lemma map_with_sizes_run (JSON_parse : string -> option json)
    (rows : list Row) (w : World) :
  match parsed JSON_parse rows with
  | Some objects => map_with_sizes JSON_parse rows w = (Returned objects, w, [])
  | None => exists e, map_with_sizes JSON_parse rows w = (Thrown e, w, [])
  end.
Proof.
  induction rows as [|d rows IH]; [reflexivity|]. cbn [parsed map_with_sizes].
  unfold bind at 1, with_sizes.
  destruct (JSON_parse (sizes_json d)) as [v|]; cbn.
  - destruct (parsed JSON_parse rows) as [objects|].
    + unfold bind. now rewrite IH.
    + destruct IH as [e IH]. unfold bind. rewrite IH. now exists e.
  - now eexists.
Qed.

Lemma get_dresses_run (JSON_parse : string -> option json)
    (category search : option string) (w : World) :
  get_dresses JSON_parse category search w =
  (Returned match parsed JSON_parse (select_dresses category search w) with
            | Some objects => Json_dresses objects
            | None => Json_error 500 "Internal Server Error"
            end, w, []).
Proof.
  unfold get_dresses, try_catch, bind, get_world. cbn.
  pose proof (map_with_sizes_run JSON_parse
                (select_dresses category search w) w) as R.
  destruct (parsed JSON_parse (select_dresses category search w)) as [objects|].
  - rewrite R. reflexivity.
  - destruct R as [e R]. rewrite R. reflexivity.
Qed.

Lemma parsed_listing (JSON_parse : string -> option json) (rows : list Row)
    (objects : list Listed) :
  parsed JSON_parse rows = Some objects <-> listing_of JSON_parse rows objects.
Proof.
  unfold listing_of. revert objects.
  induction rows as [|d rows IH]; intro objects; cbn.
  - split.
    + intro E. injection E as <-. split; [reflexivity | intros ? []].
    + intros [E _]. destruct objects; [reflexivity | discriminate].
  - split.
    + destruct (JSON_parse (sizes_json d)) as [v|] eqn:P; [|discriminate].
      destruct (parsed JSON_parse rows) as [xs|]; [|discriminate].
      intro E. injection E as <-. destruct (proj1 (IH xs) eq_refl) as [M F].
      cbn. split; [now rewrite M|].
      intros x [<-|Hx]; [exact P | now apply F].
    + intros [M F]. destruct objects as [|x xs]; [discriminate|].
      cbn in M. injection M as Mx Mxs.
      rewrite <- Mx, (F x (or_introl eq_refl)).
      rewrite (proj2 (IH xs)); [now destruct x; cbn in *; subst|].
      split; [exact Mxs|]. intros y Hy. apply F. now right.
Qed.

Lemma parsed_all_parse (JSON_parse : string -> option json) (rows : list Row) :
  parsed JSON_parse rows <> None <-> all_parse JSON_parse rows.
Proof.
  unfold all_parse. induction rows as [|d rows IH]; cbn.
  - split; [intros _ r [] | discriminate].
  - destruct (JSON_parse (sizes_json d)) as [v|] eqn:P.
    + destruct (parsed JSON_parse rows) as [xs|].
      * split; [|discriminate]. intros _ r [<-|Hr]; [congruence|].
        now apply IH.
      * split; [congruence|]. intro H. exfalso.
        apply (proj2 IH); [|reflexivity]. intros r Hr. apply H. now right.
    + split; [congruence|]. intro H. exfalso. apply (H d); [now left | exact P].
Qed.

Lemma not_listed_when_absent (JSON_parse : string -> option json)
    (category search : option string) (w : World)
    (rowid : Z) (resp : Response) :
  (forall r, In r (dresses w) -> id r <> rowid) ->
  response_of (get_dresses JSON_parse category search w) = Some resp ->
  ~ listed rowid resp.
Proof.
  intros Habsent Hresp. rewrite get_dresses_run in Hresp. cbn in Hresp.
  injection Hresp as <-.
  destruct (parsed JSON_parse (select_dresses category search w))
    as [objects|] eqn:P; [|intros []].
  apply parsed_listing in P. destruct P as [M _].
  cbn. intros [d [Hd Hid]].
  assert (Hr : In (stored d) (select_dresses category search w))
    by (rewrite <- M; now apply in_map).
  apply select_dresses_In in Hr. destruct Hr as [Hr _].
  now apply (Habsent _ Hr).
Qed.

Lemma delete_success_rows (w : World) (rowid : Z) :
  response_of (delete_admin_dresses GoodToken rowid w) = Some Json_success ->
  dresses (world_of (delete_admin_dresses GoodToken rowid w))
    = without_id rowid (dresses w).
Proof.
  rewrite delete_run.
  destruct (find (has_id rowid) (dresses w)) as [r|]; [|discriminate].
  cbv zeta. destruct (mem (image_url r) (files w)); [|reflexivity].
  destruct (mem (image_url r) (unlink_fails w)); [discriminate | reflexivity].
Qed.

(** C8, as the code has it.  On an id the table does not hold, the delete
    route answers 404 and changes nothing.  On an id it holds, the route
    works on the image first and on the record second: it unlinks the image
    file when that file exists, then deletes the row.  When the unlink
    fails the route stops there with a 500 and the record is still in the
    table.  After a delete that succeeded, no row has the id, no listing
    shows it, and deleting the same id again answers 404. *)
Theorem delete_unlinks_image_then_removes_row (w : World) (rowid : Z) :
  let run := delete_admin_dresses GoodToken rowid w in
  ((forall r, In r (dresses w) -> id r <> rowid) ->
   response_of run = Some (Json_error 404 "Dress not found") /\
   world_of run = w) /\
  (forall r, find (has_id rowid) (dresses w) = Some r ->
     let p := image_url r in
     (mem p (files w) = true -> mem p (unlink_fails w) = true ->
      response_of run = Some (Json_error 500 "EACCES: permission denied") /\
      world_of run = w /\ events_of run = []) /\
     (mem p (files w) = true -> mem p (unlink_fails w) = false ->
      response_of run = Some Json_success /\
      events_of run = [FileUnlinked p; RowsDeleted rowid] /\
      ~ In p (files (world_of run))) /\
     (mem p (files w) = false ->
      response_of run = Some Json_success /\
      events_of run = [RowsDeleted rowid])) /\
  (response_of run = Some Json_success ->
   dresses (world_of run) = without_id rowid (dresses w) /\
   (forall r, In r (dresses (world_of run)) -> id r <> rowid) /\
   (forall JSON_parse category search resp,
      response_of (get_dresses JSON_parse category search (world_of run))
        = Some resp ->
      ~ listed rowid resp) /\
   response_of (delete_admin_dresses GoodToken rowid (world_of run))
     = Some (Json_error 404 "Dress not found")).
Proof.
  cbv zeta. rewrite delete_run. split; [|split].
  - intro Habsent. rewrite (find_has_id_none _ _ Habsent). now split.
  - intros r Hr. rewrite Hr. cbv zeta. split; [|split].
    + intros M1 M2. rewrite M1, M2. now repeat split.
    + intros M1 M2. rewrite M1, M2. split; [reflexivity|].
      split; [reflexivity|]. cbn.
      unfold without_file. rewrite filter_In. intros [_ H].
      rewrite String.eqb_refl in H. discriminate.
    + intros M1. rewrite M1. now split.
  - intro Hok. rewrite <- delete_run in *.
    pose proof (delete_success_rows w rowid Hok) as Hrows.
    assert (Habsent : forall r, In r (without_id rowid (dresses w)) ->
                                id r <> rowid)
      by (intro r; apply without_id_absent).
    rewrite <- Hrows in Habsent.
    split; [exact Hrows|]. split; [exact Habsent|]. split.
    + intros JSON_parse category search resp.
      now apply not_listed_when_absent.
    + rewrite delete_of_absent_id_is_404 by exact Habsent. reflexivity.
Qed.

Lemma delete_unlinks_image_then_removes_row_witness :
  find (has_id 1) (dresses shop_locked) = Some row_A1 /\
  mem (image_url row_A1) (files shop_locked) = true /\
  mem (image_url row_A1) (unlink_fails shop_locked) = true /\
  response_of (delete_admin_dresses GoodToken 1 shop_locked)
    = Some (Json_error 500 "EACCES: permission denied") /\
  world_of (delete_admin_dresses GoodToken 1 shop_locked) = shop_locked.
Proof.
  split; [reflexivity|]. split; [reflexivity|]. split; [reflexivity|].
  pose proof (proj1 (proj1 (proj2 (delete_unlinks_image_then_removes_row
                                     shop_locked 1))
                       row_A1 eq_refl) eq_refl eq_refl) as [H1 [H2 _]].
  split; [exact H1 | exact H2].
Defined.

(** C8, as stated, fails on the order and on the failed asset deletion.
    In the shop, deleting record 1 unlinks its image first and deletes the
    row second.  Where the unlink fails, the route answers 500 and record 1
    is still stored and still listed: the record removal never took place. *)
Lemma delete_image_first_and_failure_keeps_row :
  events_of (delete_admin_dresses GoodToken 1 shop)
    = [FileUnlinked "/uploads/1700000000000-1.jpg"; RowsDeleted 1] /\
  response_of (delete_admin_dresses GoodToken 1 shop_locked)
    = Some (Json_error 500 "EACCES: permission denied") /\
  In row_A1 (dresses (world_of (delete_admin_dresses GoodToken 1 shop_locked))) /\
  (exists resp,
     response_of (get_dresses sample_parse None None
                    (world_of (delete_admin_dresses GoodToken 1 shop_locked)))
       = Some resp /\ listed 1 resp).
Proof.
  split; [reflexivity|]. split; [reflexivity|]. split; [now left|].
  eexists. split; [reflexivity|].
  cbn. eexists. split; [right; left; reflexivity | reflexivity].
Qed.

(** ** Update with a new image *)


Lemma written_file_present (p : string) (fs : list string) :
  In p (if mem p fs then fs else (fs ++ [p])%list).
Proof.
  destruct (mem p fs) eqn:M.
  - now apply mem_In.
  - apply in_or_app. right. now left.
Qed.


Lemma updated_rows_image
    (rowid : Z) (f : Row -> Row) (rows : list Row) (r : Row) :
  (forall r0, id (f r0) = id r0) ->
  In r (map (fun r0 => if has_id rowid r0 then f r0 else r0) rows) ->
  id r = rowid ->
  exists r0, In r0 rows /\ id r0 = rowid /\ r = f r0.
Proof.
  intros Hid Hin Hr. apply in_map_iff in Hin. destruct Hin as [r0 [E Hr0]].
  exists r0. destruct (has_id rowid r0) eqn:H.
  - split; [exact Hr0|]. split; [now apply Z.eqb_eq | now symmetry].
  - exfalso. subst r. unfold has_id in H. apply Z.eqb_neq in H. contradiction.
Qed.




(** ** Listing with a search text *)

Lemma sql_like_percent (pattern text : string) :
  sql_like (String "%" pattern) text =
  sql_like pattern text ||
  match text with
  | EmptyString => false
  | String _ text' => sql_like (String "%" pattern) text'
  end.
Proof. destruct text; reflexivity. Qed.

Lemma sql_like_plain_char (p : ascii) (pattern text : string) :
  is_wildcard p = false ->
  sql_like (String p pattern) text =
  match text with
  | EmptyString => false
  | String c text' => eqb_nocase p c && sql_like pattern text'
  end.
Proof.
  unfold is_wildcard. intro H. apply orb_false_elim in H. destruct H as [H1 H2].
  cbn [sql_like]. rewrite H1, H2. reflexivity.
Qed.

Lemma sql_like_percent_all (text : string) : sql_like "%" text = true.
Proof.
  induction text as [|c text IH]; [reflexivity|].
  rewrite sql_like_percent. rewrite IH. apply orb_true_r.
Qed.

Lemma sql_like_starts_with (s text : string) :
  has_wildcard s = false ->
  sql_like (s ++ "%") text = istarts_with s text.
Proof.
  revert text. induction s as [|p s IH]; intros text H.
  - cbn [append]. rewrite sql_like_percent_all. now destruct text.
  - cbn [has_wildcard] in H. apply orb_false_elim in H. destruct H as [Hp Hs].
    cbn [append]. rewrite (sql_like_plain_char _ _ _ Hp).
    destruct text as [|c text]; [reflexivity|].
    cbn [istarts_with]. now rewrite IH.
Qed.

Lemma sql_like_contains (s text : string) :
  has_wildcard s = false ->
  sql_like ("%" ++ s ++ "%") text = icontains s text.
Proof.
  intro H. change ("%" ++ s ++ "%") with (String "%" (s ++ "%")).
  induction text as [|c text IH].
  - rewrite sql_like_percent, (sql_like_starts_with _ _ H).
    cbn [icontains]. reflexivity.
  - rewrite sql_like_percent, (sql_like_starts_with _ _ H), IH.
    reflexivity.
Qed.

Lemma icontains_empty (text : string) : icontains "" text = true.
Proof. destruct text; reflexivity. Qed.

Lemma search_condition_plain (s : string) (r : Row) :
  has_wildcard s = false ->
  search_condition (Some s) r =
  icontains s (name r) || icontains s (code r) || icontains s (category r).
Proof.
  intro H. unfold search_condition.
  destruct (truthy s) eqn:T.
  - cbv zeta. now rewrite !(sql_like_contains _ _ H).
  - unfold truthy in T. apply negb_false_iff, String.eqb_eq in T. subst s.
    now rewrite !icontains_empty.
Qed.

(** What the list route answers: the listing of the selected rows when all
    their texts parse, and 500 as soon as one does not. *)
Lemma get_dresses_cases (JSON_parse : string -> option json)
    (category search : option string) (w : World) :
  let selected := select_dresses category search w in
  let answer := response_of (get_dresses JSON_parse category search w) in
  (all_parse JSON_parse selected ->
   exists objects, answer = Some (Json_dresses objects) /\
                   listing_of JSON_parse selected objects) /\
  (~ all_parse JSON_parse selected ->
   answer = Some (Json_error 500 "Internal Server Error")) /\
  (forall objects, answer = Some (Json_dresses objects) ->
                   listing_of JSON_parse selected objects).
Proof.
  cbv zeta. rewrite get_dresses_run. cbn [response_of].
  destruct (parsed JSON_parse (select_dresses category search w))
    as [objects|] eqn:P.
  - split; [|split].
    + intros _. exists objects. split; [reflexivity|]. now apply parsed_listing.
    + intro H. exfalso. apply H. apply parsed_all_parse. congruence.
    + intros objects' E. injection E as <-. now apply parsed_listing.
  - split; [|split].
    + intro H. apply parsed_all_parse in H. congruence.
    + reflexivity.
    + discriminate.
Qed.

(** C10, as the code has it.  For a search text free of the LIKE wildcards
    [%] and [_], the list route selects a row exactly when it passes the
    category condition and the text occurs, up to the case of ASCII letters,
    in its name, its code or its category; the note is not consulted.  The
    answer is the listing of the selected rows (or 500 when the sizes text
    of one of them does not parse).  So a stored record whose note holds the
    text while name, code and category do not is not selected and is in no
    answer. *)
Theorem search_reads_name_code_category_only
    (JSON_parse : string -> option json)
    (w : World) (category : option string) (s : string) :
  has_wildcard s = false ->
  let selected := select_dresses category (Some s) w in
  let answer := response_of (get_dresses JSON_parse category (Some s) w) in
  (forall r, In r selected <->
     In r (dresses w) /\
     category_condition category r = true /\
     (icontains s (name r) || icontains s (code r)
      || icontains s (Server.category r)) = true) /\
  (all_parse JSON_parse selected ->
   exists objects, answer = Some (Json_dresses objects) /\
                   listing_of JSON_parse selected objects) /\
  (~ all_parse JSON_parse selected ->
   answer = Some (Json_error 500 "Internal Server Error")) /\
  (forall r, In r (dresses w) ->
     icontains s (note r) = true ->
     icontains s (name r) = false ->
     icontains s (code r) = false ->
     icontains s (Server.category r) = false ->
     ~ In r selected /\
     forall objects, answer = Some (Json_dresses objects) ->
                     ~ In r (map stored objects)).
Proof.
  intros Hplain. cbv zeta.
  assert (Hiff : forall r,
            In r (select_dresses category (Some s) w)
            <-> In r (dresses w) /\
                category_condition category r = true /\
                (icontains s (name r) || icontains s (code r)
                 || icontains s (Server.category r)) = true).
  { intro r. rewrite <- (search_condition_plain s r Hplain).
    rewrite <- andb_true_iff. apply select_dresses_In. }
  destruct (get_dresses_cases JSON_parse category (Some s) w)
    as [Hok [Hfail Hlist]]. cbv zeta in *.
  split; [exact Hiff|]. split; [exact Hok|]. split; [exact Hfail|].
  intros r Hr _ Hn Hc Hk.
  assert (Hnot : ~ In r (select_dresses category (Some s) w)).
  { intro Hin. apply Hiff in Hin. destruct Hin as [_ [_ H]].
    rewrite Hn, Hc, Hk in H. discriminate. }
  split; [exact Hnot|].
  intros objects E. destruct (Hlist objects E) as [M _]. now rewrite M.
Qed.

Lemma search_reads_name_code_category_only_witness :
  In row_D4 (dresses shop_with_D4) /\
  has_wildcard "cut" = false /\
  icontains "cut" (note row_D4) = true /\
  ~ In row_D4 (select_dresses None (Some "cut") shop_with_D4).
Proof.
  assert (H : In row_D4 (dresses shop_with_D4)) by (right; right; now left).
  split; [exact H|]. split; [reflexivity|]. split; [reflexivity|].
  exact (proj1 (proj2 (proj2 (proj2 (search_reads_name_code_category_only
                                       sample_parse shop_with_D4 None "cut"
                                       eq_refl)))
                  row_D4 H eq_refl eq_refl eq_refl eq_refl)).
Defined.

(** C10, as stated, fails for a search text that holds a LIKE wildcard.
    The text [a_c] occurs in the note of D4 and in none of its name, code
    and category, yet the route returns D4: as a pattern, [%a_c%] matches
    the name "Frock abc". *)
Lemma wildcard_search_returns_note_only_record :
  icontains "a_c" (note row_D4) = true /\
  icontains "a_c" (name row_D4) = false /\
  icontains "a_c" (code row_D4) = false /\
  icontains "a_c" (Server.category row_D4) = false /\
  select_dresses None (Some "a_c") shop_with_D4 = [row_D4] /\
  response_of (get_dresses sample_parse None (Some "a_c") shop_with_D4)
    = Some (Json_dresses [{| stored := row_D4;
                             sizes := JSizes [size_of "S" 300] |}]).
Proof. repeat split; reflexivity. Qed.

(** The category condition of the list route: an exact match for a
    requested category other than "All"; no condition for "All", and none
    either when the parameter is missing or empty. *)
Lemma server_category_condition (c : string) (r : Row) :
  category_condition None r = true /\
  category_condition (Some c) r =
    if (c =? "")%string || (c =? "All")%string then true
    else (Server.category r =? c)%string.
Proof.
  split; [reflexivity|]. unfold category_condition, truthy.
  destruct (c =? "")%string, (c =? "All")%string; reflexivity.
Qed.

Lemma server_category_filter (w : World) (c : string) (r : Row) :
  c <> "" -> c <> "All" ->
  (In r (select_dresses (Some c) None w) <->
   In r (dresses w) /\ Server.category r = c).
Proof.
  intros H1 H2. rewrite select_dresses_In.
  rewrite (proj2 (server_category_condition c r)).
  apply String.eqb_neq in H1, H2. rewrite H1, H2. cbn.
  rewrite andb_true_r, String.eqb_eq. reflexivity.
Qed.

(** The admin routes do nothing for a request without an accepted token:
    no file is stored and no statement runs. *)
Lemma admin_routes_need_token
    (w : World) (rowid : Z) (body : Body.t) (file : option string)
    (now : string) (auth : Credentials) :
  auth <> GoodToken ->
  let denied := match auth with
                | NoToken => Json_error 401 "Unauthorized"
                | _ => Json_error 403 "Forbidden"
                end in
  post_admin_dresses auth body file now w = (Returned denied, w, []) /\
  put_admin_dresses auth rowid body file w = (Returned denied, w, []) /\
  delete_admin_dresses auth rowid w = (Returned denied, w, []).
Proof.
  intro H. destruct auth; [| |contradiction]; repeat split; reflexivity.
Qed.

(** ** The displayed price range *)

Lemma price_range_ordered (l : list SizeInfo) :
  l <> [] ->
  exists lo hi,
    Math_min (map (fun s => Fin (price s)) l) = Fin lo /\
    Math_max (map (fun s => Fin (price s)) l) = Fin hi /\
    lo <= hi.
Proof.
  induction l as [|s l IH]; [congruence|]. intros _.
  destruct l as [|s' l].
  - exists (price s), (price s). cbn. repeat split. lia.
  - destruct IH as [lo [hi [Hlo [Hhi Hle]]]]; [discriminate|].
    exists (Z.min (price s) lo), (Z.max (price s) hi).
    unfold Math_min, Math_max in *.
    cbn [map fold_right] in *. rewrite Hlo, Hhi. cbn.
    repeat split. lia.
Qed.

(** A record with variants has a minimum price no greater than its maximum
    price. *)
Lemma minPrice_le_maxPrice (d : App.Dress) :
  has_variants d = true ->
  num_leb (App.minPrice d) (App.maxPrice d) = true.
Proof.
  unfold has_variants, App.minPrice, App.maxPrice. intro H.
  destruct (price_range_ordered (App.sizes d)) as [lo [hi [-> [-> Hle]]]].
  - destruct (App.sizes d); [discriminate | congruence].
  - cbn. now apply Z.leb_le.
Qed.

(* ================================================================== *)
(** * Further properties of the browsing page *)

(** X1.  For a record with at least one variant, the derived minimum and
    maximum prices are finite, each is the price of one of its variants, and
    every variant's price lies between them. *)
Theorem derived_prices_bound_and_attained (d : App.Dress) :
  has_variants d = true ->
  exists lo hi,
    App.minPrice d = Fin lo /\ App.maxPrice d = Fin hi /\
    (exists s, In s (App.sizes d) /\ price s = lo) /\
    (exists s, In s (App.sizes d) /\ price s = hi) /\
    (forall s, In s (App.sizes d) -> lo <= price s <= hi).
Proof.
  unfold has_variants, App.minPrice, App.maxPrice. intro H.
  apply price_range_attained. destruct (App.sizes d); [discriminate | congruence].
Qed.

Lemma derived_prices_bound_and_attained_witness :
  has_variants dress_A1 = true /\
  exists lo hi,
    App.minPrice dress_A1 = Fin lo /\ App.maxPrice dress_A1 = Fin hi /\
    (exists s, In s (App.sizes dress_A1) /\ price s = lo) /\
    (exists s, In s (App.sizes dress_A1) /\ price s = hi) /\
    (forall s, In s (App.sizes dress_A1) -> lo <= price s <= hi).
Proof.
  split; [reflexivity|].
  exact (derived_prices_bound_and_attained dress_A1 eq_refl).
Defined.

Lemma stable_sort_always_le {A : Type} (le : A -> A -> bool) (l : list A) :
  (forall x y, le x y = true) -> stable_sort le l = l.
Proof.
  intro H. induction l as [|x l IH]; simpl; [reflexivity|].
  rewrite IH. destruct l as [|y l]; simpl; [reflexivity|]. now rewrite H.
Qed.



Section MoreQueryEngine.
Variable Date_getTime : string -> number.

(** X3.  A sort key other than the three the menu offers leaves the list in
    the order the previous stage produced. *)
Theorem unknown_sort_key_keeps_order (sortBy : string) (l : list App.Dress) :
  sortBy <> "price_asc" -> sortBy <> "price_desc" -> sortBy <> "newest" ->
  App.sortStage Date_getTime sortBy l = l.
Proof.
  intros H1 H2 H3. apply stable_sort_always_le. intros x y.
  unfold sort_le, SortCompare, App.compareDresses.
  apply String.eqb_neq in H1, H2, H3. now rewrite H1, H2, H3.
Qed.


End MoreQueryEngine.

Lemma unknown_sort_key_keeps_order_witness :
  "price" <> "price_asc" /\
  App.sortStage no_date "price" [dress_B2; dress_C3; dress_A1]
    = [dress_B2; dress_C3; dress_A1].
Proof.
  assert (H : "price" <> "price_asc") by discriminate.
  split; [exact H|].
  apply (unknown_sort_key_keeps_order no_date "price"); [exact H | |];
    discriminate.
Defined.


(* ================================================================== *)
(** * Tokens, login and the seeded admin *)

Lemma split_no_sep (sep : ascii) (s : string) :
  Auth.has_char sep s = false -> Auth.split sep s = [s].
Proof.
  induction s as [|c s IH]; cbn; intro H; [reflexivity|].
  apply orb_false_elim in H. destruct H as [Hc Hs].
  rewrite Hc, (IH Hs). reflexivity.
Qed.

Lemma split_at_first_sep (sep : ascii) (a rest : string) :
  Auth.has_char sep a = false ->
  Auth.split sep (a ++ String sep rest) = a :: Auth.split sep rest.
Proof.
  induction a as [|c a IH]; cbn; intro H.
  - now rewrite Ascii.eqb_refl.
  - apply orb_false_elim in H. destruct H as [Hc Ha].
    rewrite Hc, (IH Ha). reflexivity.
Qed.

Lemma truthy_append_sep (a rest : string) (c : ascii) :
  truthy (a ++ String c rest) = true.
Proof. destruct a; reflexivity. Qed.

Section AuthFacts.
Variable jwt_verify : string -> bool.
Variable jwt_sign : Z -> string -> string.
Variable hashSync : string -> string.
Variable compareSync : string -> string -> bool.

Lemma token_of_two_words (scheme token : string) :
  Auth.has_char " " scheme = false ->
  Auth.has_char " " token = false ->
  token <> "" ->
  Auth.token_of (Some (scheme ++ " " ++ token)) = Some token.
Proof.
  intros Hs Ht Hne. unfold Auth.token_of.
  change (scheme ++ " " ++ token) with (scheme ++ String " " token).
  rewrite truthy_append_sep, (split_at_first_sep _ _ _ Hs), (split_no_sep _ _ Ht).
  cbn. assert (T : truthy token = true).
  { unfold truthy. apply negb_true_iff. now apply String.eqb_neq. }
  now rewrite T.
Qed.


(** X6.  A session.  When signed tokens verify and hold no space, the token
    a successful login returns, sent back as [Bearer <token>] the way the
    dashboard sends it, passes [authenticateToken]: each admin route then
    runs as it does for an accepted token. *)
Theorem login_token_opens_admin_routes
    (users : Auth.Users) (name password token : string)
    (req : Catalog.Request) (w : World) :
  (forall uid n, jwt_verify (jwt_sign uid n) = true) ->
  (forall uid n, Auth.has_char " " (jwt_sign uid n) = false /\
                 jwt_sign uid n <> "") ->
  Auth.post_admin_login jwt_sign compareSync name password users
    = Auth.Login_token token ->
  Catalog.handle (Auth.credentials_of jwt_verify (Some (Auth.bearer token)))
    req w
  = Catalog.handle GoodToken req w.
Proof.
  intros Hverify Hshape Hlogin.
  assert (E : exists uid n, token = jwt_sign uid n).
  { unfold Auth.post_admin_login in Hlogin.
    destruct (Auth.find_user name users) as [u|]; [|discriminate].
    destruct (compareSync password (Auth.password_hash u)); [|discriminate].
    injection Hlogin as <-. now eexists; eexists. }
  destruct E as [uid [n ->]]. destruct (Hshape uid n) as [Hsp Hne].
  assert (C : Auth.credentials_of jwt_verify
                (Some (Auth.bearer (jwt_sign uid n))) = GoodToken).
  { unfold Auth.credentials_of, Auth.bearer.
    change ("Bearer " ++ jwt_sign uid n)
      with ("Bearer" ++ " " ++ jwt_sign uid n).
    rewrite (token_of_two_words "Bearer" _ eq_refl Hsp Hne).
    now rewrite Hverify. }
  now rewrite C.
Qed.

Lemma find_user_app_new (name : string) (l : list Auth.User) (u : Auth.User) :
  find (fun v => (Auth.username v =? name)%string) l = None ->
  Auth.username u = name ->
  find (fun v => (Auth.username v =? name)%string) (l ++ [u]) = Some u.
Proof.
  intros Hnone Hu. induction l as [|v l IH]; cbn in *.
  - rewrite Hu, String.eqb_refl. reflexivity.
  - destruct (Auth.username v =? name)%string; [discriminate|]. now apply IH.
Qed.

End AuthFacts.

Lemma seedAdmin_keeps_existing
    (hash : string -> string) (envName pw : option string) (t : Auth.Users) :
  Auth.find_user (Auth.env_or envName "yukii22") t <> None ->
  Auth.seedAdmin hash envName pw t = t.
Proof.
  intro H. unfold Auth.seedAdmin. cbv zeta.
  destruct (Auth.find_user (Auth.env_or envName "yukii22") t); congruence.
Qed.

Lemma seedAdmin_user_present
    (hash : string -> string) (envName pw : option string) (t : Auth.Users) :
  Auth.find_user (Auth.env_or envName "yukii22")
    (Auth.seedAdmin hash envName pw t) <> None.
Proof.
  unfold Auth.seedAdmin. cbv zeta.
  destruct (Auth.find_user (Auth.env_or envName "yukii22") t) as [u|] eqn:F.
  - rewrite F. discriminate.
  - unfold Auth.find_user. cbn [Auth.rows].
    erewrite find_user_app_new; [discriminate | exact F | reflexivity].
Qed.

(** X7.  Seeding is idempotent and never overwrites: once [seedAdmin] has
    run, running it again for the same user name, with whatever password and
    hash, leaves the [users] table as it is; and a table that already holds
    the name is not touched at all. *)
Theorem seedAdmin_runs_once
    (hash1 hash2 : string -> string) (envName pw1 pw2 : option string)
    (t : Auth.Users) :
  Auth.seedAdmin hash2 envName pw2 (Auth.seedAdmin hash1 envName pw1 t)
    = Auth.seedAdmin hash1 envName pw1 t /\
  (Auth.find_user (Auth.env_or envName "yukii22") t <> None ->
   Auth.seedAdmin hash1 envName pw1 t = t).
Proof.
  split.
  - apply seedAdmin_keeps_existing, seedAdmin_user_present.
  - apply seedAdmin_keeps_existing.
Qed.

Lemma seedAdmin_runs_once_witness :
  Auth.find_user (Auth.env_or (Some "owner") "yukii22")
    (Auth.seedAdmin toy_hash (Some "owner") (Some "first") no_users) <> None /\
  Auth.seedAdmin toy_hash (Some "owner") (Some "second")
    (Auth.seedAdmin toy_hash (Some "owner") (Some "first") no_users)
  = Auth.seedAdmin toy_hash (Some "owner") (Some "first") no_users.
Proof.
  assert (H : Auth.find_user (Auth.env_or (Some "owner") "yukii22")
                (Auth.seedAdmin toy_hash (Some "owner") (Some "first") no_users)
              <> None) by discriminate.
  split; [exact H|].
  exact (proj2 (seedAdmin_runs_once toy_hash toy_hash (Some "owner")
                  (Some "second") (Some "second")
                  (Auth.seedAdmin toy_hash (Some "owner") (Some "first") no_users))
           H).
Defined.




Lemma toy_sign_shape (uid : Z) (n : string) :
  Auth.has_char " " (toy_sign uid n) = false /\ toy_sign uid n <> "".
Proof.
  unfold toy_sign. split; [|discriminate].
  destruct (Auth.has_char " " n) eqn:E; cbn; [reflexivity | exact E].
Qed.

Lemma login_token_opens_admin_routes_witness :
  (forall uid n, toy_verify (toy_sign uid n) = true) /\
  Auth.post_admin_login toy_sign toy_compare "yukii22" "yuki@88"
    (Auth.seedAdmin toy_hash None None no_users)
    = Auth.Login_token "jwt.yukii22" /\
  Catalog.handle (Auth.credentials_of toy_verify (Some "Bearer jwt.yukii22"))
    (Catalog.Delete 1) shop
  = Catalog.handle GoodToken (Catalog.Delete 1) shop.
Proof.
  assert (H : forall uid n, toy_verify (toy_sign uid n) = true)
    by reflexivity.
  split; [exact H|]. split; [reflexivity|].
  exact (login_token_opens_admin_routes toy_verify toy_sign toy_compare
           (Auth.seedAdmin toy_hash None None no_users)
           "yukii22" "yuki@88" "jwt.yukii22" (Catalog.Delete 1) shop
           H toy_sign_shape eq_refl).
Defined.

(* ================================================================== *)
(** * Names of uploaded files *)

Lemma string_of_uint_digits (d : Decimal.uint) :
  Upload.all_digits (NilEmpty.string_of_uint d) = true.
Proof. induction d; cbn; auto. Qed.

Lemma decimal_digits (n : N) :
  Upload.all_digits (Upload.decimal n) = true /\ Upload.decimal n <> "".
Proof.
  unfold Upload.decimal, NilZero.string_of_uint.
  destruct (N.to_uint n) eqn:E; cbn;
    try (split; [apply string_of_uint_digits | discriminate]).
  split; [reflexivity | discriminate].
Qed.

Lemma decimal_inj (a b : N) : Upload.decimal a = Upload.decimal b -> a = b.
Proof.
  unfold Upload.decimal. intro H.
  apply Unsigned.to_uint_inj.
  assert (Na : N.to_uint a <> Decimal.Nil).
  { destruct a as [|p]; [discriminate|]. cbn.
    intro E. apply (f_equal Pos.of_uint) in E.
    rewrite DecimalPos.Unsigned.of_to in E. discriminate. }
  assert (Nb : N.to_uint b <> Decimal.Nil).
  { destruct b as [|p]; [discriminate|]. cbn.
    intro E. apply (f_equal Pos.of_uint) in E.
    rewrite DecimalPos.Unsigned.of_to in E. discriminate. }
  pose proof (NilZero.usu _ Na) as Ua. pose proof (NilZero.usu _ Nb) as Ub.
  rewrite H in Ua. congruence.
Qed.

(** A run of digits followed by something that does not start with a digit
    splits in one way only. *)
Lemma digits_split_unique (a a' r r' : string) :
  Upload.all_digits a = true -> Upload.all_digits a' = true ->
  Upload.not_digit_led r -> Upload.not_digit_led r' ->
  a ++ r = a' ++ r' -> a = a' /\ r = r'.
Proof.
  revert a'. induction a as [|c a IH]; intros a' Ha Ha' Hr Hr' E.
  - destruct a' as [|c' a']; [now split|]. cbn in *.
    apply andb_true_iff in Ha'. destruct Ha' as [Hc' _].
    subst r. cbn in Hr. congruence.
  - destruct a' as [|c' a']; cbn in *.
    + apply andb_true_iff in Ha. destruct Ha as [Hc _].
      subst r'. cbn in Hr'. congruence.
    + apply andb_true_iff in Ha, Ha'. destruct Ha as [_ Ha], Ha' as [_ Ha'].
      injection E as -> E. destruct (IH a' Ha Ha' Hr Hr' E) as [-> ->].
      now split.
Qed.

Lemma append_assoc3 (a b c : string) : (a ++ b) ++ c = a ++ (b ++ c).
Proof. induction a as [|x a IH]; cbn; [reflexivity | now rewrite IH]. Qed.

Lemma extension_not_digit_led (e : string) :
  Upload.extension_shaped e -> Upload.not_digit_led e.
Proof. destruct e as [|c e]; cbn; [trivial | now intros ->]. Qed.

(** X9.  Stored file names do not collide: two uploads whose clock value or
    random draw differ get different names, whatever their original names;
    the name determines the clock value, the draw and the extension. *)
Theorem upload_names_do_not_collide
    (now now' random random' : N) (ext ext' : string) :
  Upload.extension_shaped ext -> Upload.extension_shaped ext' ->
  Upload.filename now random ext = Upload.filename now' random' ext' ->
  now = now' /\ random = random' /\ ext = ext'.
Proof.
  intros He He' E. unfold Upload.filename in E. cbv zeta in E.
  rewrite !append_assoc3 in E.
  destruct (decimal_digits now) as [Dn _], (decimal_digits now') as [Dn' _].
  destruct (decimal_digits random) as [Dr _], (decimal_digits random') as [Dr' _].
  apply digits_split_unique in E; try assumption; try reflexivity.
  destruct E as [En E]. cbn in E. injection E as E.
  apply digits_split_unique in E; try assumption;
    try now apply extension_not_digit_led.
  destruct E as [Er Ee].
  split; [now apply decimal_inj|]. split; [now apply decimal_inj | exact Ee].
Qed.

Lemma upload_names_do_not_collide_witness :
  Upload.extension_shaped ".jpg" /\
  Upload.filename 1700000000000 42 ".jpg" = "1700000000000-42.jpg" /\
  (1700000000000 = 1700000000000 /\ 42 = 42 /\ ".jpg" = ".jpg")%N.
Proof.
  assert (H : Upload.extension_shaped ".jpg") by reflexivity.
  split; [exact H|]. split; [reflexivity|].
  exact (upload_names_do_not_collide
           1700000000000 1700000000000 42 42 ".jpg" ".jpg" H H eq_refl).
Defined.

(** X10.  A stored file name starts with a decimal digit.  So it is never
    the text [undefined], the name a record created without an image points
    at, and it holds a [/] only if the extension does. *)
Theorem upload_name_starts_with_digit (now random : N) (ext : string) :
  (exists c rest, Upload.filename now random ext = String c rest /\
                  Upload.is_digit c = true) /\
  Upload.filename now random ext <> "undefined" /\
  (Auth.has_char "/" ext = false ->
   Auth.has_char "/" (Upload.filename now random ext) = false).
Proof.
  assert (Hd : forall s, Upload.all_digits s = true ->
                         Auth.has_char "/" s = false).
  { induction s as [|c s IH]; cbn; [reflexivity|]. intro H.
    apply andb_true_iff in H. destruct H as [Hc Hs]. rewrite (IH Hs).
    destruct (Ascii.eqb_spec c "/"); [subst c; discriminate | reflexivity]. }
  assert (Happ : forall a b, Auth.has_char "/" (a ++ b)
                             = Auth.has_char "/" a || Auth.has_char "/" b).
  { induction a as [|c a IH]; intro b; cbn; [reflexivity|].
    now rewrite IH, orb_assoc. }
  destruct (decimal_digits now) as [Dn Nn], (decimal_digits random) as [Dr _].
  assert (Hhead : exists c rest, Upload.filename now random ext = String c rest
                                 /\ Upload.is_digit c = true).
  { unfold Upload.filename. cbv zeta.
    destruct (Upload.decimal now) as [|c s]; [congruence|].
    cbn in Dn. apply andb_true_iff in Dn. destruct Dn as [Hc _].
    exists c. eexists. split; [reflexivity | exact Hc]. }
  split; [exact Hhead|]. split.
  - destruct Hhead as [c [rest [E Hc]]]. rewrite E. intro U.
    injection U as -> _. discriminate.
  - intro He. unfold Upload.filename. cbv zeta.
    rewrite !Happ, (Hd _ Dn), (Hd _ Dr), He. reflexivity.
Qed.

Lemma upload_name_starts_with_digit_witness :
  Auth.has_char "/" ".png" = false /\
  Auth.has_char "/" (Upload.filename 1700000000005 5 ".png") = false.
Proof.
  split; [reflexivity|].
  exact (proj2 (proj2 (upload_name_starts_with_digit 1700000000005 5 ".png"))
           eq_refl).
Defined.

(* ================================================================== *)
(** * The table across requests *)

Import Catalog.

Lemma post_world (auth : Credentials) (w : World) (body : Body.t)
    (file : option string) (now : string) :
  let w' := world_of (post_admin_dresses auth body file now w) in
  unlink_fails w' = unlink_fails w /\
  ((auth <> GoodToken \/ existsb (has_code (Body.code body)) (dresses w) = true) ->
   dresses w' = dresses w /\ sqlite_sequence w' = sqlite_sequence w) /\
  (auth = GoodToken ->
   existsb (has_code (Body.code body)) (dresses w) = false ->
   dresses w' = (dresses w ++ [new_row_of w body file now])%list /\
   sqlite_sequence w' = sqlite_sequence w + 1).
Proof.
  cbv zeta. destruct auth; try (repeat split; intros; try discriminate;
                                reflexivity || congruence).
  destruct (existsb (has_code (Body.code body)) (dresses w)) eqn:E.
  - destruct file; run_route; rewrite E; cbn; repeat split; intros;
      try reflexivity; discriminate.
  - destruct file; run_route; rewrite E; cbn; repeat split; intros;
      try reflexivity; destruct H; congruence.
Qed.

Lemma put_world (auth : Credentials) (w : World) (rowid : Z) (body : Body.t)
    (file : option string) :
  let w' := world_of (put_admin_dresses auth rowid body file w) in
  unlink_fails w' = unlink_fails w /\
  sqlite_sequence w' = sqlite_sequence w /\
  dresses w' =
    if match auth with GoodToken => true | _ => false end &&
       negb (code_clash rowid (Body.code body) (dresses w))
    then updated_rows rowid body file (dresses w)
    else dresses w.
Proof.
  cbv zeta. destruct auth; try (repeat split; reflexivity).
  unfold code_clash, updated_rows.
  destruct file; run_route;
    destruct (existsb (has_id rowid) (dresses w) &&
              existsb (fun r => has_code (Body.code body) r &&
                                negb (has_id rowid r)) (dresses w));
    cbn; repeat split; reflexivity.
Qed.

Lemma delete_world (auth : Credentials) (w : World) (rowid : Z) :
  let w' := world_of (delete_admin_dresses auth rowid w) in
  unlink_fails w' = unlink_fails w /\
  sqlite_sequence w' = sqlite_sequence w /\
  (dresses w' = dresses w \/ dresses w' = without_id rowid (dresses w)).
Proof.
  cbv zeta. destruct auth; try (repeat split; try reflexivity; now left).
  rewrite delete_run.
  destruct (find (has_id rowid) (dresses w)) as [r|];
    [|repeat split; try reflexivity; now left].
  cbv zeta. destruct (mem (image_url r) (files w));
    [destruct (mem (image_url r) (unlink_fails w))|];
    repeat split; try reflexivity; (now left) || (now right).
Qed.

Lemma NoDup_snoc {A : Type} (l : list A) (x : A) :
  NoDup l -> ~ In x l -> NoDup (l ++ [x]).
Proof.
  intros Hl Hx. eapply Permutation_NoDup; [apply Permutation_cons_append|].
  now constructor.
Qed.

(** Dropping rows keeps a key a key. *)
Lemma kept_rows_distinct {K : Type} (key : Row -> K) (keep : Row -> bool)
    (rows : list Row) (Hkey : NoDup (map key rows)) :
  NoDup (map key (filter keep rows)).
Proof.
  induction rows as [|r rows IH]; cbn in *; [constructor|].
  apply NoDup_cons_iff in Hkey. destruct Hkey as [Hfirst Hrest].
  destruct (keep r); cbn; [|exact (IH Hrest)].
  apply NoDup_cons_iff. split; [|exact (IH Hrest)].
  intro Hin. apply Hfirst. apply in_map_iff in Hin.
  destruct Hin as [r' [E Hr']]. apply filter_In in Hr'.
  rewrite <- E. apply in_map. tauto.
Qed.

Lemma updated_rows_ids (rowid : Z) (body : Body.t) (file : option string)
    (rows : list Row) :
  map id (updated_rows rowid body file rows) = map id rows /\
  map created_at (updated_rows rowid body file rows) = map created_at rows.
Proof.
  unfold updated_rows. rewrite !map_map. split; apply map_ext; intro r;
    destruct (has_id rowid r); reflexivity.
Qed.

Lemma updated_rows_codes (rowid : Z) (body : Body.t) (file : option string)
    (rows : list Row) :
  NoDup (map id rows) -> NoDup (map code rows) ->
  code_clash rowid (Body.code body) rows = false ->
  NoDup (map code (updated_rows rowid body file rows)).
Proof.
  intros Hid Hcode Hclash. unfold code_clash in Hclash.
  destruct (existsb (has_id rowid) rows) eqn:Ex.
  - cbn in Hclash.
    assert (Hother : forall r, In r rows -> code r = Body.code body ->
                               id r = rowid).
    { intros r Hr Hc. destruct (Z.eq_dec (id r) rowid) as [E|N]; [exact E|].
      exfalso. assert (T : existsb (fun r0 => has_code (Body.code body) r0 &&
                                              negb (has_id rowid r0)) rows = true).
      { apply existsb_exists. exists r. split; [exact Hr|].
        unfold has_code, has_id. rewrite Hc, String.eqb_refl.
        apply Z.eqb_neq in N. now rewrite N. }
      congruence. }
    clear Ex Hclash. induction rows as [|r rows IH]; cbn; [constructor|].
    cbn in Hid, Hcode. inversion Hid as [|? ? Hi Hid']; subst.
    inversion Hcode as [|? ? Hc Hcode']; subst.
    assert (IH' : NoDup (map code (updated_rows rowid body file rows)))
      by (apply IH; auto; intros; apply Hother; auto; now right).
    constructor; [|exact IH'].
    intro Hin. apply in_map_iff in Hin. destruct Hin as [r' [E Hr']].
    unfold updated_rows in Hr'. apply in_map_iff in Hr'.
    destruct Hr' as [r0 [E0 Hr0]]. subst r'.
    destruct (has_id rowid r) eqn:Pr, (has_id rowid r0) eqn:P0; cbn in E.
    + apply Hi. unfold has_id in *. apply Z.eqb_eq in Pr, P0.
      rewrite Pr, <- P0. now apply in_map.
    + apply Hi. rewrite <- (Hother r0 (or_intror Hr0) E) in Pr.
      unfold has_id in Pr. apply Z.eqb_eq in Pr. rewrite Pr. now apply in_map.
    + assert (id r = rowid) by (apply Hother; [now left | now symmetry]).
      unfold has_id in Pr. apply Z.eqb_neq in Pr. contradiction.
    + apply Hc. rewrite <- E. now apply in_map.
  - unfold updated_rows. rewrite update_no_match; [exact Hcode|].
    intros r Hr E. assert (T : existsb (has_id rowid) rows = true).
    { apply existsb_exists. exists r. split; [exact Hr|]. now apply Z.eqb_eq. }
    congruence.
Qed.

Lemma handle_step (auth : Credentials) (req : Request) (w : World) :
  well_formed w ->
  let w' := world_of (handle auth req w) in
  well_formed w' /\
  sqlite_sequence w <= sqlite_sequence w' /\
  (forall r, In r (dresses w') ->
     In (id r) (map id (dresses w)) \/ sqlite_sequence w < id r).
Proof.
  intros [Hid [Hcode Hseq]]. cbv zeta. destruct req as [body file now|rowid body file|rowid]; cbn [handle].
  - destruct (post_world auth w body file now) as [_ [Hsame Hnew]].
    cbv zeta in *.
    destruct (existsb (has_code (Body.code body)) (dresses w)) eqn:E.
    + destruct (Hsame (or_intror eq_refl)) as [R S]. unfold well_formed.
      rewrite R, S. repeat split; auto; try lia.
      intros r Hr. left. now apply in_map.
    + destruct auth;
        try (destruct Hsame as [R S]; [left; discriminate|];
             unfold well_formed; rewrite R, S; repeat split; auto; try lia;
             intros r Hr; left; now apply in_map).
      destruct (Hnew eq_refl eq_refl) as [R S]. unfold well_formed.
      rewrite R, S, !map_app. cbn [map new_row_of id code].
      rewrite Forall_forall in Hseq.
      repeat split.
      * apply NoDup_snoc; [exact Hid|].
        intro Hin. apply in_map_iff in Hin.
        destruct Hin as [r [Er Hr]]. specialize (Hseq r Hr). lia.
      * apply NoDup_snoc; [exact Hcode|].
        intro Hin. apply in_map_iff in Hin.
        destruct Hin as [r [Er Hr]].
        assert (T : existsb (has_code (Body.code body)) (dresses w) = true).
        { apply existsb_exists. exists r. split; [exact Hr|].
          now apply String.eqb_eq. }
        congruence.
      * apply Forall_app. split.
        -- apply Forall_forall. intros r Hr. specialize (Hseq r Hr). lia.
        -- constructor; [cbn; lia | constructor].
      * lia.
      * intros r Hr. apply in_app_or in Hr. destruct Hr as [Hr|[<-|[]]].
        -- left. now apply in_map.
        -- right. cbn. lia.
  - destruct (put_world auth w rowid body file) as [_ [S R]]. cbv zeta in *.
    unfold well_formed. rewrite S.
    destruct (match auth with GoodToken => true | _ => false end &&
              negb (code_clash rowid (Body.code body) (dresses w))) eqn:G;
      rewrite R.
    + apply andb_true_iff in G. destruct G as [_ G].
      apply negb_true_iff in G.
      destruct (updated_rows_ids rowid body file (dresses w)) as [Eid _].
      rewrite Eid. repeat split; auto; try lia.
      * now apply updated_rows_codes.
      * apply Forall_forall. intros r Hr.
        assert (Hi : In (id r) (map id (dresses w)))
          by (rewrite <- Eid; now apply in_map).
        apply in_map_iff in Hi. destruct Hi as [r0 [E0 Hr0]].
        rewrite Forall_forall in Hseq. rewrite <- E0. now apply Hseq.
      * intros r Hr. left. rewrite <- Eid. now apply in_map.
    + repeat split; auto; try lia. intros r Hr. left. now apply in_map.
  - destruct (delete_world auth w rowid) as [_ [S R]]. cbv zeta in *.
    unfold well_formed. rewrite S. destruct R as [R|R]; rewrite R.
    + repeat split; auto; try lia. intros r Hr. left. now apply in_map.
    + unfold without_id. repeat split; try lia.
      * now apply kept_rows_distinct.
      * now apply kept_rows_distinct.
      * apply Forall_forall. intros r Hr. apply filter_In in Hr.
        rewrite Forall_forall in Hseq. now apply Hseq.
      * intros r Hr. apply filter_In in Hr. left. apply in_map. tauto.
Qed.

Lemma run_all_steps (reqs : list (Credentials * Request)) (w : World) :
  well_formed w ->
  well_formed (run_all reqs w) /\
  sqlite_sequence w <= sqlite_sequence (run_all reqs w) /\
  (forall r, In r (dresses (run_all reqs w)) ->
     In (id r) (map id (dresses w)) \/ sqlite_sequence w < id r).
Proof.
  revert w. induction reqs as [|[auth req] reqs IH]; intros w Hw; cbn.
  - split; [exact Hw|]. split; [lia|]. intros r Hr. left. now apply in_map.
  - destruct (handle_step auth req w Hw) as [Hw1 [Hs1 Hi1]]. cbv zeta in *.
    destruct (IH _ Hw1) as [Hw2 [Hs2 Hi2]].
    split; [exact Hw2|]. split; [lia|].
    intros r Hr. destruct (Hi2 r Hr) as [Hin|Hlt]; [|right; lia].
    apply in_map_iff in Hin. destruct Hin as [r1 [E Hr1]].
    rewrite <- E. apply Hi1. exact Hr1.
Qed.

(** X11.  The three admin routes keep the table in shape.  The empty store
    is well formed, and from a well-formed store any series of create,
    update and delete requests, accepted or rejected, leaves a store where
    ids are pairwise distinct, codes are pairwise distinct, and no id
    exceeds the AUTOINCREMENT counter. *)
Theorem admin_requests_keep_table_well_formed
    (reqs : list (Credentials * Request)) (w : World) :
  well_formed initial_world /\
  (well_formed w -> well_formed (run_all reqs w)).
Proof.
  split.
  - repeat split; constructor.
  - intro Hw. now apply run_all_steps.
Qed.

Lemma admin_requests_keep_table_well_formed_witness :
  well_formed shop /\
  well_formed (run_all [(GoodToken, Create body_E5 None "2024-02-01 09:00:00");
                        (GoodToken, Update 1 body_A1 (Some "1700000000007-7.jpg"));
                        (NoToken, Delete 1);
                        (GoodToken, Delete 2)] shop).
Proof.
  assert (H : well_formed shop).
  { split; [|split].
    - repeat constructor; cbn; intuition discriminate.
    - repeat constructor; cbn; intuition discriminate.
    - repeat constructor; cbn; lia. }
  split; [exact H|].
  exact (proj2 (admin_requests_keep_table_well_formed _ shop) H).
Defined.

(** X12.  Ids are not reused.  Once a record of a well-formed store has been
    deleted, no later series of admin requests brings a row with its id
    back: creates hand out ids above the counter, and the counter never
    goes down. *)
Theorem deleted_id_never_returns
    (w : World) (rowid : Z) (reqs : list (Credentials * Request)) :
  well_formed w ->
  In rowid (map id (dresses w)) ->
  response_of (delete_admin_dresses GoodToken rowid w) = Some Json_success ->
  let w1 := world_of (delete_admin_dresses GoodToken rowid w) in
  ~ In rowid (map id (dresses (run_all reqs w1))).
Proof.
  intros Hw Hin Hok. cbv zeta.
  pose proof (handle_step GoodToken (Delete rowid) w Hw) as [Hw1 _].
  cbn [handle] in Hw1. cbv zeta in Hw1.
  pose proof (delete_success_rows w rowid Hok) as Hrows.
  destruct (delete_world GoodToken w rowid) as [_ [Hseq _]]. cbv zeta in Hseq.
  destruct (run_all_steps reqs _ Hw1) as [_ [_ Hids]].
  intro Hback. apply in_map_iff in Hback. destruct Hback as [r [Er Hr]].
  destruct (Hids r Hr) as [Hold|Hnew].
  - rewrite Hrows in Hold. apply in_map_iff in Hold.
    destruct Hold as [r0 [E0 Hr0]]. apply without_id_absent in Hr0. congruence.
  - rewrite Hseq in Hnew. destruct Hw as [_ [_ Hle]].
    rewrite Forall_forall in Hle. apply in_map_iff in Hin.
    destruct Hin as [r0 [E0 Hr0]]. specialize (Hle r0 Hr0). lia.
Qed.

Lemma deleted_id_never_returns_witness :
  well_formed shop /\
  In 2 (map id (dresses shop)) /\
  response_of (delete_admin_dresses GoodToken 2 shop) = Some Json_success /\
  ~ In 2 (map id (dresses
       (run_all [(GoodToken, Create body_E5 None "2024-02-01 09:00:00")]
          (world_of (delete_admin_dresses GoodToken 2 shop))))).
Proof.
  assert (H : well_formed shop).
  { split; [|split].
    - repeat constructor; cbn; intuition discriminate.
    - repeat constructor; cbn; intuition discriminate.
    - repeat constructor; cbn; lia. }
  assert (I : In 2 (map id (dresses shop))) by (right; now left).
  split; [exact H|]. split; [exact I|]. split; [reflexivity|].
  exact (deleted_id_never_returns shop 2 _ H I eq_refl).
Defined.

(** String order: [String.leb] is transitive. *)
Lemma string_compare_trans (s1 s2 s3 : string) (c : comparison) :
  String.compare s1 s2 = c -> String.compare s2 s3 = c ->
  String.compare s1 s3 = c.
Proof.
  revert s2 s3. induction s1 as [|a s1 IH]; intros [|b s2] [|d s3];
    cbn; try congruence.
  unfold Ascii.compare.
  destruct (N.compare_spec (N_of_ascii a) (N_of_ascii b)) as [E1|L1|G1];
    destruct (N.compare_spec (N_of_ascii b) (N_of_ascii d)) as [E2|L2|G2];
    destruct (N.compare_spec (N_of_ascii a) (N_of_ascii d)) as [E3|L3|G3];
    try lia; try congruence; try apply IH.
Qed.

Lemma string_leb_trans (s1 s2 s3 : string) :
  String.leb s1 s2 = true -> String.leb s2 s3 = true -> String.leb s1 s3 = true.
Proof.
  unfold String.leb.
  destruct (String.compare s1 s2) eqn:C12; try discriminate;
    destruct (String.compare s2 s3) eqn:C23; try discriminate; intros _ _.
  - apply String.compare_eq_iff in C12, C23. subst.
    assert (E : String.compare s3 s3 = Eq).
    { clear. induction s3 as [|a s IH]; cbn; [reflexivity|].
      unfold Ascii.compare. now rewrite N.compare_refl. }
    now rewrite E.
  - apply String.compare_eq_iff in C12. subst. now rewrite C23.
  - apply String.compare_eq_iff in C23. subst. now rewrite C12.
  - now rewrite (string_compare_trans _ _ _ Lt C12 C23).
Qed.

Lemma newer_or_equal_total (a b : Row) :
  newer_or_equal a b = true \/ newer_or_equal b a = true.
Proof. unfold newer_or_equal. apply String.leb_total. Qed.

Lemma newer_or_equal_trans (a b c : Row) :
  newer_or_equal a b = true -> newer_or_equal b c = true ->
  newer_or_equal a c = true.
Proof.
  unfold newer_or_equal. intros H1 H2. now apply string_leb_trans with (created_at b).
Qed.

(** X13.  Create, then list.  After a create with an unused code, the list
    route, called without parameters or with the new record's category,
    selects the new row: its id and image reference are the ones the create
    answered, its fields and its sizes text the ones supplied.  The create
    never looks into the sizes text, so the listing answers 500 when that
    text is not JSON; and whenever the route answers a listing, the listing
    holds the new record with, for sizes, what [JSON.parse] makes of the
    supplied text. *)
Theorem created_record_is_listed
    (JSON_parse : string -> option json)
    (w : World) (body : Body.t) (file : option string) (now : string)
    (category : option string) :
  (forall r, In r (dresses w) -> code r <> Body.code body) ->
  category = None \/ category = Some (Body.category body) ->
  let run := post_admin_dresses GoodToken body file now w in
  let selected := select_dresses category None (world_of run) in
  let answer :=
    response_of (get_dresses JSON_parse category None (world_of run)) in
  exists rowid imageUrl row,
    response_of run = Some (Json_created rowid imageUrl) /\
    In row selected /\
    id row = rowid /\ image_url row = imageUrl /\
    code row = Body.code body /\ name row = Body.name body /\
    Server.category row = Body.category body /\ note row = Body.note body /\
    sizes_json row = Body.sizes body /\
    (JSON_parse (Body.sizes body) = None ->
     answer = Some (Json_error 500 "Internal Server Error")) /\
    (forall objects, answer = Some (Json_dresses objects) ->
     exists d, In d objects /\ stored d = row /\
               JSON_parse (Body.sizes body) = Some (sizes d)).
Proof.
  intros Hfresh Hcat. cbv zeta.
  pose proof (existsb_has_code_false _ _ Hfresh) as E.
  destruct (post_world GoodToken w body file now) as [_ [_ Hnew]].
  destruct (Hnew eq_refl E) as [R _]. cbv zeta in R.
  set (row := new_row_of w body file now).
  assert (Hsel : In row (select_dresses category None
                   (world_of (post_admin_dresses GoodToken body file now w)))).
  { apply select_dresses_In. rewrite R. split.
    - apply in_or_app. right. now left.
    - destruct Hcat as [->| ->]; cbn; [reflexivity|].
      destruct (truthy (Body.category body) &&
                negb (Body.category body =? "All")%string);
        [|reflexivity].
      now rewrite String.eqb_refl. }
  destruct (get_dresses_cases JSON_parse category None
              (world_of (post_admin_dresses GoodToken body file now w)))
    as [_ [Hfail Hlist]]. cbv zeta in *.
  exists (sqlite_sequence w + 1),
         ("/uploads/" ++ match file with Some f => f | None => "undefined" end),
         row.
  split; [destruct file; run_route; rewrite E; reflexivity|].
  split; [exact Hsel|].
  do 7 (split; [reflexivity|]).
  split.
  - intro Hbad. apply Hfail. intro Hall. apply (Hall row Hsel). exact Hbad.
  - intros objects Hans. destruct (Hlist objects Hans) as [M F].
    rewrite <- M in Hsel. apply in_map_iff in Hsel.
    destruct Hsel as [d [Ed Hd]]. exists d. split; [exact Hd|].
    split; [exact Ed|]. specialize (F d Hd). now rewrite Ed in F.
Qed.

Lemma created_record_is_listed_witness :
  (forall r, In r (dresses shop) -> code r <> Body.code body_E5) /\
  exists rowid imageUrl row,
    response_of (post_admin_dresses GoodToken body_E5
                   (Some "1700000000005-5.png") "2024-02-01 09:00:00" shop)
      = Some (Json_created rowid imageUrl) /\
    In row (select_dresses (Some "Summer") None
              (world_of (post_admin_dresses GoodToken body_E5
                 (Some "1700000000005-5.png") "2024-02-01 09:00:00" shop))) /\
    id row = rowid /\ image_url row = imageUrl /\
    sizes_json row = Body.sizes body_E5.
Proof.
  assert (H : forall r, In r (dresses shop) -> code r <> Body.code body_E5).
  { intros r [<-|[<-|[]]]; discriminate. }
  split; [exact H|].
  destruct (created_record_is_listed sample_parse shop body_E5
              (Some "1700000000005-5.png") "2024-02-01 09:00:00"
              (Some "Summer") H (or_intror eq_refl))
    as [rowid [imageUrl [row [R [S [I [U [_ [_ [_ [_ [Z _]]]]]]]]]]]].
  exists rowid, imageUrl, row. repeat split; assumption.
Defined.

(** X14.  The list route selects the rows that pass its two conditions,
    each once, ordered by [created_at] from the latest to the earliest.  It
    answers with these rows in that order, each with what [JSON.parse]
    makes of its sizes text, when every selected text parses, and with 500
    when one does not. *)
Theorem listing_is_newest_first
    (JSON_parse : string -> option json)
    (w : World) (category search : option string) :
  let selected := select_dresses category search w in
  let answer := response_of (get_dresses JSON_parse category search w) in
  Permutation
    (filter (fun r => category_condition category r &&
                      search_condition search r) (dresses w))
    selected /\
  StronglySorted
    (fun a b => String.leb (created_at b) (created_at a) = true) selected /\
  (all_parse JSON_parse selected ->
   exists objects, answer = Some (Json_dresses objects) /\
                   listing_of JSON_parse selected objects) /\
  (~ all_parse JSON_parse selected ->
   answer = Some (Json_error 500 "Internal Server Error")).
Proof.
  cbv zeta. split; [apply stable_sort_perm|]. split.
  - apply (stable_sort_sorted newer_or_equal);
      [apply newer_or_equal_total | apply newer_or_equal_trans].
  - destruct (get_dresses_cases JSON_parse category search w) as [A [B _]].
    split; assumption.
Qed.

Lemma listing_is_newest_first_witness :
  all_parse sample_parse (select_dresses None None shop) /\
  exists objects,
    response_of (get_dresses sample_parse None None shop)
      = Some (Json_dresses objects) /\
    map stored objects = [row_B2; row_A1].
Proof.
  assert (H : all_parse sample_parse (select_dresses None None shop)).
  { intros r [<-|[<-|[]]]; discriminate. }
  split; [exact H|].
  destruct (proj1 (proj2 (proj2 (listing_is_newest_first sample_parse shop
                                   None None))) H)
    as [objects [R [M _]]].
  exists objects. split; [exact R | exact M].
Defined.

(** X15.  An update whose code is unused, or is the record's own, succeeds
    and replaces the fields wholesale: every row with the id then carries
    the code, name, category, note and sizes text of the request.  It
    never changes an id or a creation time, adds or removes no row, leaves
    the rows of other ids as they were, and leaves every image reference
    alone when no image comes with the request. *)
Theorem update_replaces_fields_keeps_identity
    (w : World) (rowid : Z) (body : Body.t) (file : option string) :
  (forall r, In r (dresses w) -> code r = Body.code body -> id r = rowid) ->
  let run := put_admin_dresses GoodToken rowid body file w in
  let rows' := dresses (world_of run) in
  response_of run = Some Json_success /\
  map id rows' = map id (dresses w) /\
  map created_at rows' = map created_at (dresses w) /\
  (file = None -> map image_url rows' = map image_url (dresses w)) /\
  (forall r, In r rows' -> id r = rowid ->
     code r = Body.code body /\ name r = Body.name body /\
     category r = Body.category body /\ note r = Body.note body /\
     sizes_json r = Body.sizes body) /\
  (forall r, id r <> rowid -> (In r rows' <-> In r (dresses w))).
Proof.
  intro Hown. cbv zeta.
  assert (Hclash : code_clash rowid (Body.code body) (dresses w) = false).
  { unfold code_clash. apply andb_false_iff. right.
    apply not_true_is_false. intro T. apply existsb_exists in T.
    destruct T as [r [Hr T]]. apply andb_true_iff in T. destruct T as [Tc Ti].
    unfold has_code in Tc. apply String.eqb_eq in Tc.
    specialize (Hown r Hr Tc). unfold has_id in Ti.
    apply negb_true_iff, Z.eqb_neq in Ti. contradiction. }
  destruct (put_world GoodToken w rowid body file) as [_ [_ R]].
  cbv zeta in R. rewrite Hclash in R. cbn [andb negb] in R. rewrite R.
  destruct (updated_rows_ids rowid body file (dresses w)) as [Eid Ect].
  split.
  - unfold code_clash in Hclash.
    destruct file; run_route; rewrite Hclash; reflexivity.
  - split; [exact Eid|]. split; [exact Ect|]. split; [|split].
    + intros ->. unfold updated_rows. rewrite !map_map. apply map_ext.
      intro r. now destruct (has_id rowid r).
    + intros r Hr Hi. unfold updated_rows in Hr.
      destruct (updated_rows_image rowid
                  (update_row (Body.code body) (Body.name body)
                     (Body.category body) (Body.note body) (Body.sizes body)
                     (option_map (fun f => "/uploads/" ++ f) file))
                  (dresses w) r (fun _ => eq_refl) Hr Hi) as [r0 [_ [_ ->]]].
      now repeat split.
    + intros r Hi. unfold updated_rows. rewrite in_map_iff. split.
      * intros [r0 [E Hr0]]. destruct (has_id rowid r0) eqn:P.
        -- exfalso. subst r. cbn in Hi. unfold has_id in P.
           apply Z.eqb_eq in P. contradiction.
        -- now subst.
      * intro Hr. exists r. split; [|exact Hr].
        assert (P : has_id rowid r = false) by now apply Z.eqb_neq.
        now rewrite P.
Qed.

Lemma update_replaces_fields_keeps_identity_witness :
  (forall r, In r (dresses shop) -> code r = Body.code body_A1 -> id r = 1) /\
  response_of (put_admin_dresses GoodToken 1 body_A1 None shop)
    = Some Json_success /\
  map id (dresses (world_of (put_admin_dresses GoodToken 1 body_A1 None shop)))
    = [1; 2].
Proof.
  assert (H : forall r, In r (dresses shop) -> code r = Body.code body_A1 ->
                        id r = 1).
  { intros r [<-|[<-|[]]]; [reflexivity | discriminate]. }
  split; [exact H|].
  pose proof (update_replaces_fields_keeps_identity shop 1 body_A1 None H) as T.
  cbv zeta in T. destruct T as [T1 [T2 _]]. split; [exact T1 | exact T2].
Defined.

(** X16.  An update of an existing record to a code that another record
    holds is rejected: the response is the 400 carrying the uniqueness
    error on [dresses.code], and the table is unchanged. *)
Theorem update_to_used_code_rejected
    (w : World) (rowid : Z) (body : Body.t) (file : option string) :
  (exists r, In r (dresses w) /\ id r = rowid) ->
  (exists r, In r (dresses w) /\ code r = Body.code body /\ id r <> rowid) ->
  let run := put_admin_dresses GoodToken rowid body file w in
  response_of run
    = Some (Json_error 400 "UNIQUE constraint failed: dresses.code") /\
  dresses (world_of run) = dresses w.
Proof.
  intros [r [Hr Hi]] [r' [Hr' [Hc Hn]]]. cbv zeta.
  assert (Hclash : code_clash rowid (Body.code body) (dresses w) = true).
  { unfold code_clash. apply andb_true_iff. split; apply existsb_exists.
    - exists r. split; [exact Hr | now apply Z.eqb_eq].
    - exists r'. split; [exact Hr'|]. unfold has_code, has_id.
      rewrite Hc, String.eqb_refl. apply Z.eqb_neq in Hn. now rewrite Hn. }
  split.
  - unfold code_clash in Hclash.
    destruct file; run_route; rewrite Hclash; reflexivity.
  - destruct (put_world GoodToken w rowid body file) as [_ [_ R]].
    cbv zeta in R. now rewrite Hclash in R.
Qed.

Lemma update_to_used_code_rejected_witness :
  (exists r, In r (dresses shop) /\ id r = 2) /\
  (exists r, In r (dresses shop) /\ code r = Body.code body_A1 /\ id r <> 2) /\
  response_of (put_admin_dresses GoodToken 2 body_A1 None shop)
    = Some (Json_error 400 "UNIQUE constraint failed: dresses.code").
Proof.
  assert (H1 : exists r, In r (dresses shop) /\ id r = 2).
  { exists row_B2. split; [right; now left | reflexivity]. }
  assert (H2 : exists r, In r (dresses shop) /\ code r = Body.code body_A1 /\
                         id r <> 2).
  { exists row_A1. split; [now left|]. split; [reflexivity | discriminate]. }
  split; [exact H1|]. split; [exact H2|].
  exact (proj1 (update_to_used_code_rejected shop 2 body_A1 None H1 H2)).
Defined.

(** X17.  The upload is stored before the handler runs, and no handler
    removes it when the request comes to nothing.  A create rejected for a
    used code, and an update of an id the table does not hold, both leave
    the table unchanged and the uploaded file in the directory. *)
Theorem fruitless_request_leaves_upload
    (w : World) (rowid : Z) (body : Body.t) (filename now : string) :
  let path := "/uploads/" ++ filename in
  ((exists r, In r (dresses w) /\ code r = Body.code body) ->
   let run := post_admin_dresses GoodToken body (Some filename) now w in
   events_of run = [FileWritten path] /\
   In path (files (world_of run)) /\
   dresses (world_of run) = dresses w) /\
  ((forall r, In r (dresses w) -> id r <> rowid) ->
   let run := put_admin_dresses GoodToken rowid body (Some filename) w in
   events_of run = [FileWritten path; RowsUpdated rowid] /\
   In path (files (world_of run)) /\
   dresses (world_of run) = dresses w).
Proof.
  cbv zeta. split.
  - intro Hdup. apply existsb_has_code_true in Hdup.
    run_route. rewrite Hdup. cbn. split; [reflexivity|].
    split; [apply written_file_present | reflexivity].
  - intro Habsent. pose proof (existsb_has_id_false _ _ Habsent) as E.
    run_route. rewrite E. cbn. split; [reflexivity|].
    split; [apply written_file_present | now apply update_no_match].
Qed.

Lemma fruitless_request_leaves_upload_witness :
  (exists r, In r (dresses shop) /\ code r = Body.code body_A1) /\
  In "/uploads/1700000000009-9.jpg"
    (files (world_of (post_admin_dresses GoodToken body_A1
                        (Some "1700000000009-9.jpg") "2024-02-01 09:00:00" shop))) /\
  dresses (world_of (post_admin_dresses GoodToken body_A1
                       (Some "1700000000009-9.jpg") "2024-02-01 09:00:00" shop))
    = dresses shop.
Proof.
  assert (H : exists r, In r (dresses shop) /\ code r = Body.code body_A1).
  { exists row_A1. split; [now left | reflexivity]. }
  split; [exact H|].
  exact (proj2 (proj1 (fruitless_request_leaves_upload shop 7 body_A1
                         "1700000000009-9.jpg" "2024-02-01 09:00:00") H)).
Defined.

(* ================================================================== *)
(** * Categories *)

Lemma category_filter_spec (L : list App.Dress) (C : string) :
  C <> "All" ->
  forall d, In d (App.categoryFilter C L) <-> In d L /\ App.category d = C.
Proof.
  intros HC d. unfold App.categoryFilter.
  apply String.eqb_neq in HC. rewrite HC. cbn.
  rewrite filter_In, String.eqb_eq. reflexivity.
Qed.

Lemma distinct_In (x : string) (l : list string) : In x (distinct l) <-> In x l.
Proof.
  induction l as [|y l IH]; cbn; [reflexivity|].
  rewrite filter_In, IH, negb_true_iff, String.eqb_neq.
  destruct (String.eqb_spec y x) as [E|N]; [tauto|]. split.
  - intros [H|[H _]]; [now left | now right].
  - intros [H|H]; [now left|]. right. split; [exact H | congruence].
Qed.

Lemma distinct_NoDup (l : list string) : NoDup (distinct l).
Proof.
  induction l as [|y l IH]; cbn; constructor.
  - rewrite filter_In, String.eqb_refl. intros [_ H]. discriminate.
  - now apply NoDup_filter.
Qed.

(** X18.  The categories route answers "All" followed by the categories of
    the stored records, each once.  The dashboard's select, which drops
    "All" from that answer, therefore offers exactly the stored categories
    other than "All", each once. *)
Theorem categories_are_the_stored_ones (w : World) :
  exists facets,
    get_categories w = "All" :: facets /\
    NoDup facets /\
    (forall c, In c facets <-> exists r, In r (dresses w) /\ category r = c) /\
    NoDup (View.category_options (get_categories w)) /\
    (forall c, In c (View.category_options (get_categories w)) <->
               c <> "All" /\ exists r, In r (dresses w) /\ category r = c).
Proof.
  exists (distinct (map category (dresses w))).
  assert (Hin : forall c, In c (distinct (map category (dresses w))) <->
                          exists r, In r (dresses w) /\ category r = c).
  { intro c. rewrite distinct_In, in_map_iff. split; intros [r [A B]]; eauto. }
  split; [reflexivity|]. split; [apply distinct_NoDup|]. split; [exact Hin|].
  unfold View.category_options, get_categories. cbn. split.
  - apply NoDup_filter, distinct_NoDup.
  - intro c. rewrite filter_In, Hin, negb_true_iff, String.eqb_neq. tauto.
Qed.

Lemma as_Dress_category (o : Listed) (d : App.Dress) :
  View.as_Dress o = Some d -> App.category d = category (stored o).
Proof.
  unfold View.as_Dress. destruct (sizes o); [|discriminate].
  intro E. injection E as <-. reflexivity.
Qed.

Lemma as_Dresses_In (objects : list Listed) (fetched : list App.Dress) :
  View.as_Dresses objects = Some fetched ->
  forall o, In o objects -> exists d, In d fetched /\ View.as_Dress o = Some d.
Proof.
  revert fetched. induction objects as [|x objects IH]; intros fetched E o Ho;
    [destruct Ho|].
  cbn in E. destruct (View.as_Dress x) as [dx|] eqn:Ex; [|discriminate].
  destruct (View.as_Dresses objects) as [ds|]; [|discriminate].
  injection E as <-. destruct Ho as [<-|Ho].
  - exists dx. split; [now left | exact Ex].
  - destruct (IH ds eq_refl o Ho) as [d [Hd Ed]]. exists d.
    split; [now right | exact Ed].
Qed.

Lemma listing_answer (JSON_parse : string -> option json)
    (category search : option string) (w : World) (objects : list Listed) :
  response_of (get_dresses JSON_parse category search w)
    = Some (Json_dresses objects) <->
  parsed JSON_parse (select_dresses category search w) = Some objects.
Proof.
  rewrite get_dresses_run. cbn.
  destruct (parsed JSON_parse (select_dresses category search w)) as [xs|];
    split; intro E; try discriminate; injection E as <-; reflexivity.
Qed.

(** X19.  Every facet the categories route lists, other than "All", selects
    at least one record when the browsing page applies it to the list the
    list route returned for the same store, and it selects records of that
    category only.  The list the page holds is the route's answer, read as
    [Dress[]]. *)
Theorem listed_facet_selects_a_record
    (JSON_parse : string -> option json) (w : World) (c : string)
    (objects : list Listed) (fetched : list App.Dress) :
  In c (get_categories w) -> c <> "All" ->
  response_of (get_dresses JSON_parse None None w)
    = Some (Json_dresses objects) ->
  View.as_Dresses objects = Some fetched ->
  (exists d, In d (App.categoryFilter c fetched)) /\
  (forall d, In d (App.categoryFilter c fetched) -> App.category d = c).
Proof.
  intros Hc Hall Hans Hpage.
  pose proof (category_filter_spec fetched c Hall) as Hspec.
  split.
  - destruct Hc as [Hc|Hc]; [congruence|].
    apply distinct_In, in_map_iff in Hc. destruct Hc as [r [E Hr]].
    apply listing_answer, parsed_listing in Hans. destruct Hans as [M _].
    assert (Hsel : In r (select_dresses None None w))
      by (apply select_dresses_In; split; [exact Hr | reflexivity]).
    rewrite <- M in Hsel. apply in_map_iff in Hsel.
    destruct Hsel as [o [Eo Ho]].
    destruct (as_Dresses_In objects fetched Hpage o Ho) as [d [Hd Ed]].
    exists d. apply Hspec. split; [exact Hd|].
    rewrite (as_Dress_category o d Ed), Eo. exact E.
  - intros d Hd. now apply Hspec in Hd.
Qed.

Lemma listed_facet_selects_a_record_witness :
  In "Winter" (get_categories shop) /\ "Winter" <> "All" /\
  exists objects fetched,
    response_of (get_dresses sample_parse None None shop)
      = Some (Json_dresses objects) /\
    View.as_Dresses objects = Some fetched /\
    exists d, In d (App.categoryFilter "Winter" fetched).
Proof.
  assert (H1 : In "Winter" (get_categories shop)) by (right; right; now left).
  assert (H2 : "Winter" <> "All") by discriminate.
  split; [exact H1|]. split; [exact H2|].
  assert (R : exists objects,
             response_of (get_dresses sample_parse None None shop)
               = Some (Json_dresses objects) /\
             View.as_Dresses objects <> None).
  { eexists. split; [reflexivity | discriminate]. }
  destruct R as [objects [R P]].
  destruct (View.as_Dresses objects) as [fetched|] eqn:E; [|now elim P].
  exists objects, fetched. split; [exact R|]. split; [exact E|].
  exact (proj1 (listed_facet_selects_a_record sample_parse shop "Winter"
                  objects fetched H1 H2 R E)).
Defined.

(* ================================================================== *)
(** * Filtering on the server or on the page *)

Section SortAndFilter.
Context {A : Type}.
Variable le : A -> A -> bool.
Hypothesis le_total : forall x y, le x y = true \/ le y x = true.
Hypothesis le_trans :
  forall x y z, le x y = true -> le y z = true -> le x z = true.

Lemma insert_sorted_front (x : A) (s : list A) :
  Forall (fun y => le x y = true) s -> insert_sorted le x s = x :: s.
Proof.
  destruct s as [|y s]; cbn; [reflexivity|]. intro H.
  inversion H as [|? ? Hy _]; subst. now rewrite Hy.
Qed.

Lemma insert_sorted_filter_commute (P : A -> bool) (x : A) (s : list A) :
  StronglySorted (fun a b => le a b = true) s ->
  filter P (insert_sorted le x s) =
  if P x then insert_sorted le x (filter P s) else filter P s.
Proof.
  induction 1 as [|y s Hs IH Hall]; cbn.
  - now destruct (P x).
  - destruct (le x y) eqn:Hxy; cbn.
    + destruct (P x); [|reflexivity].
      symmetry. apply (insert_sorted_front x (filter P (y :: s))).
      apply Forall_forall. intros z Hz. apply filter_In in Hz.
      destruct Hz as [[<-|Hz] _]; [exact Hxy|].
      rewrite Forall_forall in Hall. apply le_trans with y; auto.
    + rewrite IH. destruct (P x), (P y); cbn; try reflexivity.
      now rewrite Hxy.
Qed.

Lemma stable_sort_filter_commute (P : A -> bool) (l : list A) :
  filter P (stable_sort le l) = stable_sort le (filter P l).
Proof.
  induction l as [|x l IH]; [reflexivity|].
  change (stable_sort le (x :: l))
    with (insert_sorted le x (stable_sort le l)).
  rewrite insert_sorted_filter_commute
    by (apply stable_sort_sorted; assumption).
  rewrite IH. cbn [filter]. now destruct (P x).
Qed.
End SortAndFilter.

Lemma filter_map_commute {A B : Type} (f : A -> B) (p : B -> bool) (l : list A) :
  filter p (map f l) = map f (filter (fun a => p (f a)) l).
Proof.
  induction l as [|a l IH]; cbn; [reflexivity|].
  rewrite IH. now destruct (p (f a)).
Qed.

Lemma filter_true_on {A : Type} (p : A -> bool) (l : list A) :
  (forall a, In a l -> p a = true) -> filter p l = l.
Proof.
  intro H. induction l as [|a l IH]; cbn; [reflexivity|].
  rewrite (H a) by now left. rewrite IH; [reflexivity|].
  intros b Hb. apply H. now right.
Qed.

Lemma filter_true {A : Type} (p : A -> bool) (l : list A) :
  (forall a, p a = true) -> filter p l = l.
Proof.
  intro H. induction l as [|a l IH]; cbn; [reflexivity|]. now rewrite H, IH.
Qed.

Lemma parsed_filter (JSON_parse : string -> option json) (p : Row -> bool)
    (rows : list Row) (objects : list Listed) :
  parsed JSON_parse rows = Some objects ->
  parsed JSON_parse (filter p rows)
  = Some (filter (fun o => p (stored o)) objects).
Proof.
  revert objects. induction rows as [|r rows IH]; intros objects E; cbn in E.
  - injection E as <-. reflexivity.
  - destruct (JSON_parse (sizes_json r)) as [v|] eqn:P; [|discriminate].
    destruct (parsed JSON_parse rows) as [xs|]; [|discriminate].
    injection E as <-. cbn. destruct (p r); cbn; rewrite (IH xs eq_refl);
      [now rewrite P | reflexivity].
Qed.

Lemma as_Dresses_filter (p : Row -> bool) (q : App.Dress -> bool)
    (objects : list Listed) (fetched : list App.Dress) :
  (forall o d, View.as_Dress o = Some d -> q d = p (stored o)) ->
  View.as_Dresses objects = Some fetched ->
  View.as_Dresses (filter (fun o => p (stored o)) objects)
  = Some (filter q fetched).
Proof.
  intro Hpq. revert fetched.
  induction objects as [|x objects IH]; intros fetched E; cbn in E.
  - injection E as <-. reflexivity.
  - destruct (View.as_Dress x) as [dx|] eqn:Ex; [|discriminate].
    destruct (View.as_Dresses objects) as [ds|]; [|discriminate].
    injection E as <-. cbn [filter]. rewrite (Hpq x dx Ex).
    destruct (p (stored x)); cbn; rewrite (IH ds eq_refl);
      [now rewrite Ex | reflexivity].
Qed.

(** X20.  For a category facet, filtering on the server and filtering on
    the page agree.  When no two records share a creation time (the order
    of equal keys is the engine's), and the page holds the unfiltered
    listing, the list route called with a non-empty category and no search
    text answers a listing too, and it is the very list the page's
    category filter computes from the unfiltered one, newest first in both
    cases. *)
Theorem server_and_page_category_filters_agree
    (JSON_parse : string -> option json)
    (w : World) (c : string) (search : option string)
    (objects_all : list Listed) (fetched_all : list App.Dress) :
  c <> "" ->
  search = None \/ search = Some "" ->
  NoDup (map created_at (dresses w)) ->
  response_of (get_dresses JSON_parse None None w)
    = Some (Json_dresses objects_all) ->
  View.as_Dresses objects_all = Some fetched_all ->
  exists objects,
    response_of (get_dresses JSON_parse (Some c) search w)
      = Some (Json_dresses objects) /\
    View.as_Dresses objects = Some (App.categoryFilter c fetched_all).
Proof.
  intros Hne Hsearch _ Hans Hpage.
  apply listing_answer in Hans.
  assert (Hs : forall r, search_condition search r = true)
    by (intro r; destruct Hsearch as [->| ->]; reflexivity).
  assert (Hall : select_dresses None None w
                 = order_by_created_at_desc (dresses w)).
  { unfold select_dresses. f_equal. now apply filter_true. }
  unfold App.categoryFilter.
  destruct (String.eqb_spec c "All") as [->|Hnot]; cbn [negb].
  - exists objects_all. split; [|exact Hpage].
    apply listing_answer. rewrite <- Hans. f_equal.
    rewrite Hall. unfold select_dresses. f_equal.
    apply filter_true. intro r. now rewrite Hs.
  - assert (Hsel : select_dresses (Some c) search w
                   = filter (fun r => (category r =? c)%string)
                       (select_dresses None None w)).
    { rewrite Hall. unfold select_dresses, order_by_created_at_desc.
      rewrite (stable_sort_filter_commute _
                 (fun a b => String.leb_total (created_at b) (created_at a))
                 (fun a b d H1 H2 => string_leb_trans _ _ _ H2 H1)).
      f_equal. apply filter_ext. intro r.
      rewrite (proj2 (server_category_condition c r)), Hs.
      apply String.eqb_neq in Hne, Hnot. rewrite Hne, Hnot. cbn.
      apply andb_true_r. }
    exists (filter (fun o => (category (stored o) =? c)%string) objects_all).
    split.
    + apply listing_answer. rewrite Hsel.
      exact (parsed_filter JSON_parse (fun r => (category r =? c)%string)
               _ _ Hans).
    + apply (as_Dresses_filter (fun r => (category r =? c)%string)
               (fun d => (App.category d =? c)%string));
        [|exact Hpage].
      intros o d E. now rewrite (as_Dress_category o d E).
Qed.

Lemma server_and_page_category_filters_agree_witness :
  "Summer" <> "" /\
  NoDup (map created_at (dresses shop_with_D4)) /\
  exists objects_all fetched_all objects,
    response_of (get_dresses sample_parse None None shop_with_D4)
      = Some (Json_dresses objects_all) /\
    View.as_Dresses objects_all = Some fetched_all /\
    response_of (get_dresses sample_parse (Some "Summer") (Some "")
                   shop_with_D4)
      = Some (Json_dresses objects) /\
    View.as_Dresses objects = Some (App.categoryFilter "Summer" fetched_all).
Proof.
  assert (H : "Summer" <> "") by discriminate.
  assert (N : NoDup (map created_at (dresses shop_with_D4))).
  { repeat constructor; cbn; intuition discriminate. }
  split; [exact H|]. split; [exact N|].
  assert (R : exists objects_all,
             response_of (get_dresses sample_parse None None shop_with_D4)
               = Some (Json_dresses objects_all) /\
             View.as_Dresses objects_all <> None).
  { eexists. split; [reflexivity | discriminate]. }
  destruct R as [objects_all [R P]].
  destruct (View.as_Dresses objects_all) as [fetched_all|] eqn:E;
    [|now elim P].
  destruct (server_and_page_category_filters_agree sample_parse shop_with_D4
              "Summer" (Some "") objects_all fetched_all
              H (or_intror eq_refl) N R E) as [objects [A B]].
  exists objects_all, fetched_all, objects.
  repeat split; assumption.
Defined.

(* ================================================================== *)
(** * Search texts *)

Lemma ascii_lower_wildcard (p : ascii) :
  Ascii.eqb (ascii_lower p) "%" = Ascii.eqb p "%" /\
  Ascii.eqb (ascii_lower p) "_" = Ascii.eqb p "_" /\
  ascii_lower (ascii_lower p) = ascii_lower p.
Proof.
  destruct p as [[] [] [] [] [] [] [] []]; repeat split; reflexivity.
Qed.

Lemma eqb_nocase_lower (p c : ascii) :
  eqb_nocase (ascii_lower p) c = eqb_nocase p c.
Proof.
  unfold eqb_nocase. now rewrite (proj2 (proj2 (ascii_lower_wildcard p))).
Qed.

Lemma sql_like_lower_pattern (pattern text : string) :
  sql_like (to_lower pattern) text = sql_like pattern text.
Proof.
  revert text. induction pattern as [|p pattern IH]; intro text;
    [reflexivity|].
  cbn [to_lower].
  destruct (ascii_lower_wildcard p) as [Hpc [Hus _]].
  destruct (Ascii.eqb p "%") eqn:Pc.
  - apply Ascii.eqb_eq in Pc. subst p. cbn [ascii_lower].
    change (ascii_lower "%") with "%"%char.
    induction text as [|c text IHt].
    + rewrite !sql_like_percent, IH. reflexivity.
    + rewrite (sql_like_percent (to_lower pattern)), (sql_like_percent pattern).
      now rewrite IH, IHt.
  - cbn [sql_like]. rewrite Hpc, Pc, Hus.
    destruct text as [|c text]; [reflexivity|].
    now rewrite eqb_nocase_lower, IH.
Qed.

Lemma to_lower_app (a b : string) :
  to_lower (a ++ b) = to_lower a ++ to_lower b.
Proof. induction a as [|c a IH]; cbn; [reflexivity | now rewrite IH]. Qed.

(** X21.  The search of the list route does not depend on the case of the
    ASCII letters of the search text: a text and its lower-case form select
    the same rows, in the same order. *)
Theorem search_ignores_case_of_text
    (w : World) (category : option string) (s : string) :
  select_dresses category (Some (to_lower s)) w
  = select_dresses category (Some s) w.
Proof.
  unfold select_dresses. f_equal. apply filter_ext. intro r. f_equal.
  unfold search_condition.
  assert (T : truthy (to_lower s) = truthy s) by now destruct s.
  rewrite T. destruct (truthy s); [|reflexivity]. cbv zeta.
  change ("%" ++ to_lower s ++ "%") with (to_lower "%" ++ to_lower s ++ to_lower "%").
  rewrite <- !to_lower_app, !sql_like_lower_pattern. reflexivity.
Qed.

Lemma lead_byte_not_ascii (c d e : ascii) :
  (nat_of_ascii c < 128)%nat ->
  two_byte_space c d = false /\ three_byte_space c d e = false.
Proof.
  intro H. unfold two_byte_space, three_byte_space. cbv zeta.
  assert (E : forall k, (128 <= k)%nat -> (nat_of_ascii c =? k)%nat = false)
    by (intros k Hk; apply Nat.eqb_neq; lia).
  rewrite !E by lia. now split.
Qed.

Lemma white_space_only_ascii (s : string) :
  ascii_only s = true -> white_space_only s = all_white_space s.
Proof.
  induction s as [|c s1 IH]; [reflexivity|]. cbn [ascii_only]. intro H.
  apply andb_true_iff in H. destruct H as [Hc Hs]. apply Nat.ltb_lt in Hc.
  cbn [white_space_only all_white_space].
  destruct (is_white_space c); [now apply IH|]. cbn [andb].
  destruct s1 as [|d s2]; [reflexivity|].
  destruct (lead_byte_not_ascii c d d Hc) as [-> _].
  destruct s2 as [|e s3]; [reflexivity|].
  now destruct (lead_byte_not_ascii c d e Hc) as [_ ->].
Qed.

Lemma white_space_only_of_all (s : string) :
  all_white_space s = true -> white_space_only s = true.
Proof.
  induction s as [|c s IH]; [reflexivity|]. cbn [all_white_space]. intro H.
  apply andb_true_iff in H. destruct H as [Hc Hs].
  cbn [white_space_only]. rewrite Hc. now apply IH.
Qed.

Section SearchStage.
Variable fuse_search : list App.Dress -> string -> list App.Dress.

(** X22.  The fuzzy-search stage is skipped for a search text made of
    white space only (the empty text included).  For any other ASCII text
    it hands Fuse the text as typed, surrounding blanks included, not the
    trimmed text. *)
Theorem search_stage_runs_on_untrimmed_text
    (searchQuery : string) (result : list App.Dress) :
  (all_white_space searchQuery = true ->
   App.fuzzySearch fuse_search searchQuery result = result) /\
  (ascii_only searchQuery = true ->
   all_white_space searchQuery = false ->
   App.fuzzySearch fuse_search searchQuery result
     = fuse_search result searchQuery).
Proof.
  unfold App.fuzzySearch, truthy. split.
  - intro H. apply white_space_only_of_all, trim_empty_iff in H. now rewrite H.
  - intros Hascii H.
    destruct (String.eqb_spec (trim searchQuery) "") as [E|N]; [|reflexivity].
    apply trim_empty_iff in E.
    rewrite (white_space_only_ascii _ Hascii) in E. congruence.
Qed.

End SearchStage.

Lemma search_stage_runs_on_untrimmed_text_witness :
  all_white_space " frock " = false /\
  App.fuzzySearch (fun l q => if (q =? " frock ")%string then l else [])
    " frock " [dress_A1]
  = [dress_A1].
Proof.
  split; [reflexivity|].
  exact (proj2 (search_stage_runs_on_untrimmed_text
                  (fun l q => if (q =? " frock ")%string then l else [])
                  " frock " [dress_A1]) eq_refl eq_refl).
Defined.

(* ================================================================== *)
(** * Create and delete, credentials *)

Lemma find_last_row (rowid : Z) (rows : list Row) (r : Row) :
  (forall r0, In r0 rows -> id r0 <> rowid) -> id r = rowid ->
  find (has_id rowid) (rows ++ [r]) = Some r /\
  without_id rowid (rows ++ [r]) = rows.
Proof.
  intros Hrows Hr. unfold without_id.
  induction rows as [|r0 rows IH]; cbn.
  - unfold has_id. apply Z.eqb_eq in Hr. now rewrite Hr.
  - assert (N : has_id rowid r0 = false)
      by (apply Z.eqb_neq, Hrows; now left).
    rewrite N. cbn. destruct IH as [F W].
    + intros r1 H1. apply Hrows. now right.
    + split; [exact F | now rewrite W].
Qed.

Lemma without_file_last (path : string) (fs : list string) :
  ~ In path fs -> without_file path (fs ++ [path]) = fs.
Proof.
  intro H. unfold without_file. rewrite filter_app. cbn.
  rewrite String.eqb_refl. cbn. rewrite app_nil_r.
  apply filter_true_on. intros q Hq.
  apply negb_true_iff, String.eqb_neq. intros ->. contradiction.
Qed.

(** X23.  Create, then delete.  In a well-formed store, creating a record
    with an unused code and a new image file, then deleting the id the
    create handed out, succeeds and gives back the table and the directory
    as they were before the create; only the id counter has moved on. *)
Theorem create_then_delete_restores_store
    (w : World) (body : Body.t) (filename now : string) :
  well_formed w ->
  (forall r, In r (dresses w) -> code r <> Body.code body) ->
  ~ In ("/uploads/" ++ filename) (files w) ->
  ~ In ("/uploads/" ++ filename) (unlink_fails w) ->
  let w1 := world_of (post_admin_dresses GoodToken body (Some filename) now w) in
  let run := delete_admin_dresses GoodToken (sqlite_sequence w + 1) w1 in
  response_of run = Some Json_success /\
  dresses (world_of run) = dresses w /\
  files (world_of run) = files w /\
  sqlite_sequence (world_of run) = sqlite_sequence w + 1.
Proof.
  intros [_ [_ Hseq]] Hfresh Hnew Hfree. cbv zeta.
  pose proof (existsb_has_code_false _ _ Hfresh) as E.
  assert (M1 : mem ("/uploads/" ++ filename) (files w) = false).
  { apply not_true_is_false. intro T. now apply mem_In in T. }
  assert (M2 : mem ("/uploads/" ++ filename) (unlink_fails w) = false).
  { apply not_true_is_false. intro T. now apply mem_In in T. }
  set (row := new_row_of w body (Some filename) now).
  assert (W1 : world_of (post_admin_dresses GoodToken body (Some filename) now w)
               = {| dresses := (dresses w ++ [row])%list;
                    sqlite_sequence := sqlite_sequence w + 1;
                    files := (files w ++ [("/uploads/" ++ filename)%string])%list;
                    unlink_fails := unlink_fails w |}).
  { run_route. rewrite E. cbn. cbn in M1. rewrite M1. reflexivity. }
  rewrite W1. rewrite delete_run. cbn [dresses files unlink_fails].
  assert (Hold : forall r0, In r0 (dresses w) -> id r0 <> sqlite_sequence w + 1).
  { intros r0 H0. rewrite Forall_forall in Hseq. specialize (Hseq r0 H0). lia. }
  destruct (find_last_row (sqlite_sequence w + 1) (dresses w) row Hold eq_refl)
    as [F Wo].
  rewrite F. cbv zeta. cbn [image_url row new_row_of].
  assert (M3 : mem ("/uploads/" ++ filename)
                 (files w ++ [("/uploads/" ++ filename)%string])%list = true).
  { apply mem_In, in_or_app. right. now left. }
  rewrite M3, M2. cbn [response_of world_of fst snd dresses files
                       sqlite_sequence set_dresses set_files].
  split; [reflexivity|]. split; [exact Wo|].
  split; [now apply without_file_last | reflexivity].
Qed.

Lemma create_then_delete_restores_store_witness :
  well_formed shop /\
  (forall r, In r (dresses shop) -> code r <> Body.code body_E5) /\
  ~ In ("/uploads/" ++ "1700000000005-5.png") (files shop) /\
  ~ In ("/uploads/" ++ "1700000000005-5.png") (unlink_fails shop) /\
  dresses (world_of (delete_admin_dresses GoodToken 3
             (world_of (post_admin_dresses GoodToken body_E5
                          (Some "1700000000005-5.png") "2024-02-01 09:00:00"
                          shop))))
    = dresses shop.
Proof.
  assert (H0 : well_formed shop).
  { split; [|split].
    - repeat constructor; cbn; intuition discriminate.
    - repeat constructor; cbn; intuition discriminate.
    - repeat constructor; cbn; lia. }
  assert (H1 : forall r, In r (dresses shop) -> code r <> Body.code body_E5).
  { intros r [<-|[<-|[]]]; discriminate. }
  assert (H2 : ~ In ("/uploads/" ++ "1700000000005-5.png") (files shop)).
  { cbn. intuition discriminate. }
  assert (H3 : ~ In ("/uploads/" ++ "1700000000005-5.png") (unlink_fails shop)).
  { intros []. }
  split; [exact H0|]. split; [exact H1|]. split; [exact H2|]. split; [exact H3|].
  exact (proj1 (proj2 (create_then_delete_restores_store shop body_E5
                         "1700000000005-5.png" "2024-02-01 09:00:00"
                         H0 H1 H2 H3))).
Defined.

(** X24.  A request whose [Authorization] header does not yield an accepted
    token is turned away before anything else happens: whichever admin
    route it addresses, the answer is 401 or 403, no file is stored, no
    statement runs and the store is unchanged. *)
Theorem rejected_credentials_change_nothing
    (jwt_verify : string -> bool) (header : option string)
    (req : Request) (w : World) :
  Auth.credentials_of jwt_verify header <> GoodToken ->
  let run := handle (Auth.credentials_of jwt_verify header) req w in
  world_of run = w /\ events_of run = [] /\
  (response_of run = Some (Json_error 401 "Unauthorized") \/
   response_of run = Some (Json_error 403 "Forbidden")).
Proof.
  intro H. cbv zeta.
  destruct (Auth.credentials_of jwt_verify header); [| |contradiction];
    destruct req; cbn; (split; [reflexivity|]); (split; [reflexivity|]);
    (now left) || (now right).
Qed.

Lemma rejected_credentials_change_nothing_witness :
  Auth.credentials_of toy_verify (Some "Bearer forged") <> GoodToken /\
  world_of (handle (Auth.credentials_of toy_verify (Some "Bearer forged"))
              (Create body_E5 (Some "1700000000005-5.png")
                 "2024-02-01 09:00:00") shop) = shop.
Proof.
  assert (H : Auth.credentials_of toy_verify (Some "Bearer forged") <> GoodToken)
    by discriminate.
  split; [exact H|].
  exact (proj1 (rejected_credentials_change_nothing toy_verify
                  (Some "Bearer forged")
                  (Create body_E5 (Some "1700000000005-5.png")
                     "2024-02-01 09:00:00") shop H)).
Defined.
